(** * The offline pendulum template of Project Chrono

    A shallow embedding of [template_project_offline/my_example.cpp]: the
    [main] function that creates an output directory, builds a floor, a
    pendulum and a spherical joint in a [ChSystemNSC], configures a POV-Ray
    exporter and then steps the simulation until the simulated time reaches
    1.5, exporting one frame per step.

    The physics engine, the exporter, the file system and the console are
    not part of the file.  They enter the model as an interface ([Chrono])
    whose operations are arbitrary functions; [main] is the state-passing
    program that sequences calls to that interface, and every call with an
    effect is recorded, with its arguments, in a trace.  The loop need not
    terminate for an arbitrary library, so it is given a number of
    iterations it may execute, and a run tells whether [main] returned.

    A C++ [double] is a binary64 floating-point number: Rocq's primitive
    [float], whose operations are the IEEE 754 ones.  The only
    floating-point operation of [main] itself is the comparison of the loop
    guard; the arithmetic on the simulated time belongs to the library, and
    the numeral written for a time to the C++ stream, in its initial
    formatting state ([shown]). *)

From Stdlib Require Import List String Ascii Bool ZArith QArith Qround Lia Lqa
  Floats.
Import ListNotations.

Set Warnings "-inexact-float".

Local Open Scope string_scope.
Local Open Scope list_scope.
Local Close Scope Q_scope.

(** ** Values passed to the library *)

Record ChVector3d : Type := Vector3d { vx : float; vy : float; vz : float }.

(** [ChColor] stores single-precision components; each component below is
    the binary32 value of the source literal, written in hexadecimal. *)
Record ChColor : Type := Color { red : float; green : float; blue : float }.

(** [ChFrame<>(v)]: a frame at [v] with the identity rotation. *)
Record ChFrame : Type := Frame { frame_pos : ChVector3d }.

Inductive CollisionSystemType : Type := BULLET | MULTICORE.

(** The objects that [main] creates with [make_shared] and keeps in local
    variables; the variable names are used as handles. *)
Inductive handle : Type := floorBody | pendulumBody | sphericalLink | camera.

Definition handle_eqb (a b : handle) : bool :=
  match a, b with
  | floorBody, floorBody | pendulumBody, pendulumBody
  | sphericalLink, sphericalLink | camera, camera => true
  | _, _ => false
  end.

(** A [ChBodyEasyBox]: the constructor arguments and what the setters used
    by [main] write.  A new body sits at the origin, at rest, and is not
    fixed. *)
Record ChBodyEasyBox : Type := {
  Xsize : float; Ysize : float; Zsize : float;
  density : float;
  visualize : bool;
  collide : bool;
  pos : ChVector3d;
  lin_vel : ChVector3d;
  fixed : bool;
  visual_color : option ChColor;
  visual_texture : option (string * float * float)
}.

(** A [ChLinkMateGeneric]: the six constraint flags of the constructor and
    the arguments of [Initialize]. *)
Record ChLinkMateGeneric : Type := {
  c_x : bool; c_y : bool; c_z : bool;
  c_rx : bool; c_ry : bool; c_rz : bool;
  initialized : option (handle * handle * bool * ChFrame * ChFrame)
}.

(** A [ChCamera]; [None] is a field left as the library constructs it. *)
Record ChCamera : Type := {
  angle : option float;
  position : option ChVector3d;
  aim_point : option ChVector3d;
  up_vector : option ChVector3d
}.

Inductive object : Type :=
| Body (b : ChBodyEasyBox)
| Link (l : ChLinkMateGeneric)
| Camera (c : ChCamera).

(** [ChRealtimeStepTimer]: an opaque library object. *)
Inductive ChRealtimeStepTimer : Type := RealtimeStepTimer.

(** What is inserted into [std::cout]. *)
Inductive cout_item : Type :=
| Str (s : string)
| Dbl (d : float)
| Endl.

(** ** Library calls

    One constructor per library operation with an effect that [main]
    performs, with the arguments it is given ([Call_create_directory] also
    records the value returned, [Call_Add] the object the pointer refers to
    at the time of the call).  Getters ([GetChronoOutputPath],
    [GetChronoDataFile], [GetVisualShape], [GetChTime]) only read: their
    results appear as arguments of the calls that use them.  [Call_Spin] is
    [ChRealtimeStepTimer::Spin], which the source mentions only in a
    comment. *)
Inductive call : Type :=
| Call_create_directory (path : string) (created : bool)
| Call_cout (items : list cout_item)
| Call_SetChronoDataPath (dir : string)
| Call_ChSystemNSC
| Call_ChPovRay
| Call_SetTemplateFile (file : string)
| Call_SetBasePath (dir : string)
| Call_SetLight (pos : ChVector3d) (color : ChColor) (cast_shadow : bool)
| Call_SetCustomPOVcommandsScript (script : string)
| Call_SetCollisionSystemType (t : CollisionSystemType)
| Call_make_shared (h : handle) (o : object)
| Call_SetPos (h : handle) (p : ChVector3d)
| Call_SetFixed (h : handle) (b : bool)
| Call_SetLinVel (h : handle) (v : ChVector3d)
| Call_Initialize (h : handle) (b1 b2 : handle) (relative : bool) (f1 f2 : ChFrame)
| Call_Add (h : handle) (o : object)
| Call_SetColor (h : handle) (c : ChColor)
| Call_SetTexture (h : handle) (file : string) (scale_x scale_y : float)
| Call_SetAngle (h : handle) (a : float)
| Call_SetPosition (h : handle) (p : ChVector3d)
| Call_SetAimPoint (h : handle) (p : ChVector3d)
| Call_SetUpVector (h : handle) (p : ChVector3d)
| Call_SetCamera (pos aim : ChVector3d) (angle : float)
| Call_AddAll
| Call_ChRealtimeStepTimer
| Call_Spin (step : float)
| Call_ExportScript
| Call_DoStepDynamics (step : float)
| Call_ExportData.

(** ** The external library

    Everything [main] needs from Chrono, the file system and the build: the
    state of a [ChSystemNSC] is an arbitrary type, and the operations on it
    are arbitrary functions.  [Add] is given the handle and the object as
    it is when added; [GetChronoDataFile] is given the data path set by
    [SetChronoDataPath] and the file name; [create_directory] answers for a
    path.  [CHRONO_DATA_DIR] is a macro of the build. *)
Record Chrono : Type := {
  ChSystem : Type;
  ChSystemNSC : ChSystem;
  SetCollisionSystemType : CollisionSystemType -> ChSystem -> ChSystem;
  Add : handle -> object -> ChSystem -> ChSystem;
  GetChTime : ChSystem -> float;
  DoStepDynamics : float -> ChSystem -> ChSystem;
  GetChronoOutputPath : string;
  GetChronoDataFile : string -> string -> string;
  create_directory : string -> bool;
  CHRONO_DATA_DIR : string
}.

(** ** Program state *)

Section Program.

Context (L : Chrono).

(** The state [main] works on once [sys] is declared: the system, the
    objects behind the shared pointers, and the calls made so far, oldest
    first. *)
Record state : Type := State {
  sys : ChSystem L;
  objects : list (handle * object);
  calls : list call
}.

(** A statement transforms the state; [s1 ;; s2] runs [s1], then [s2]. *)
Definition stmt : Type := state -> state.

Definition seq_stmt (s1 s2 : stmt) : stmt := fun st => s2 (s1 st).

Notation "s1 ;; s2" := (seq_stmt s1 s2) (at level 61, right associativity).

Definition emit (c : call) : stmt :=
  fun st => State (sys st) (objects st) (calls st ++ [c]).

Definition on_sys (f : ChSystem L -> ChSystem L) : stmt :=
  fun st => State (f (sys st)) (objects st) (calls st).

Fixpoint lookup (h : handle) (os : list (handle * object)) : option object :=
  match os with
  | [] => None
  | (h', o) :: os' => if handle_eqb h h' then Some o else lookup h os'
  end.

Fixpoint update (h : handle) (f : object -> object)
    (os : list (handle * object)) : list (handle * object) :=
  match os with
  | [] => []
  | (h', o) :: os' =>
      if handle_eqb h h' then (h', f o) :: os' else (h', o) :: update h f os'
  end.

(** A write through the shared pointer [h]: every holder of the pointer
    sees it. *)
Definition modify (h : handle) (f : object -> object) : stmt :=
  fun st => State (sys st) (update h f (objects st)) (calls st).

Definition on_body (f : ChBodyEasyBox -> ChBodyEasyBox) (o : object) : object :=
  match o with Body b => Body (f b) | _ => o end.

Definition on_link (f : ChLinkMateGeneric -> ChLinkMateGeneric) (o : object) : object :=
  match o with Link l => Link (f l) | _ => o end.

Definition on_camera (f : ChCamera -> ChCamera) (o : object) : object :=
  match o with Camera c => Camera (f c) | _ => o end.

(** ** The library operations as statements *)

Definition make_shared (h : handle) (o : object) : stmt :=
  (fun st => State (sys st) ((h, o) :: objects st) (calls st)) ;;
  emit (Call_make_shared h o).

Definition new_ChBodyEasyBox (x y z rho : float) (vis col : bool) : object :=
  Body {| Xsize := x; Ysize := y; Zsize := z; density := rho;
          visualize := vis; collide := col;
          pos := Vector3d 0 0 0; lin_vel := Vector3d 0 0 0; fixed := false;
          visual_color := None; visual_texture := None |}.

Definition new_ChLinkMateGeneric (x y z rx ry rz : bool) : object :=
  Link {| c_x := x; c_y := y; c_z := z; c_rx := rx; c_ry := ry; c_rz := rz;
          initialized := None |}.

Definition new_ChCamera : object :=
  Camera {| angle := None; position := None; aim_point := None;
            up_vector := None |}.

Definition SetPos (h : handle) (p : ChVector3d) : stmt :=
  modify h (on_body (fun b =>
    {| Xsize := Xsize b; Ysize := Ysize b; Zsize := Zsize b;
       density := density b; visualize := visualize b; collide := collide b;
       pos := p; lin_vel := lin_vel b; fixed := fixed b;
       visual_color := visual_color b; visual_texture := visual_texture b |})) ;;
  emit (Call_SetPos h p).

Definition SetFixed (h : handle) (f : bool) : stmt :=
  modify h (on_body (fun b =>
    {| Xsize := Xsize b; Ysize := Ysize b; Zsize := Zsize b;
       density := density b; visualize := visualize b; collide := collide b;
       pos := pos b; lin_vel := lin_vel b; fixed := f;
       visual_color := visual_color b; visual_texture := visual_texture b |})) ;;
  emit (Call_SetFixed h f).

Definition SetLinVel (h : handle) (v : ChVector3d) : stmt :=
  modify h (on_body (fun b =>
    {| Xsize := Xsize b; Ysize := Ysize b; Zsize := Zsize b;
       density := density b; visualize := visualize b; collide := collide b;
       pos := pos b; lin_vel := v; fixed := fixed b;
       visual_color := visual_color b; visual_texture := visual_texture b |})) ;;
  emit (Call_SetLinVel h v).

Definition SetColor (h : handle) (c : ChColor) : stmt :=
  modify h (on_body (fun b =>
    {| Xsize := Xsize b; Ysize := Ysize b; Zsize := Zsize b;
       density := density b; visualize := visualize b; collide := collide b;
       pos := pos b; lin_vel := lin_vel b; fixed := fixed b;
       visual_color := Some c; visual_texture := visual_texture b |})) ;;
  emit (Call_SetColor h c).

Definition SetTexture (h : handle) (file : string) (sx sy : float) : stmt :=
  modify h (on_body (fun b =>
    {| Xsize := Xsize b; Ysize := Ysize b; Zsize := Zsize b;
       density := density b; visualize := visualize b; collide := collide b;
       pos := pos b; lin_vel := lin_vel b; fixed := fixed b;
       visual_color := visual_color b;
       visual_texture := Some (file, sx, sy) |})) ;;
  emit (Call_SetTexture h file sx sy).

Definition Initialize (h b1 b2 : handle) (relative : bool) (f1 f2 : ChFrame) : stmt :=
  modify h (on_link (fun l =>
    {| c_x := c_x l; c_y := c_y l; c_z := c_z l;
       c_rx := c_rx l; c_ry := c_ry l; c_rz := c_rz l;
       initialized := Some (b1, b2, relative, f1, f2) |})) ;;
  emit (Call_Initialize h b1 b2 relative f1 f2).

Definition SetAngle (h : handle) (a : float) : stmt :=
  modify h (on_camera (fun c =>
    {| angle := Some a; position := position c; aim_point := aim_point c;
       up_vector := up_vector c |})) ;;
  emit (Call_SetAngle h a).

Definition SetPosition (h : handle) (p : ChVector3d) : stmt :=
  modify h (on_camera (fun c =>
    {| angle := angle c; position := Some p; aim_point := aim_point c;
       up_vector := up_vector c |})) ;;
  emit (Call_SetPosition h p).

Definition SetAimPoint (h : handle) (p : ChVector3d) : stmt :=
  modify h (on_camera (fun c =>
    {| angle := angle c; position := position c; aim_point := Some p;
       up_vector := up_vector c |})) ;;
  emit (Call_SetAimPoint h p).

Definition SetUpVector (h : handle) (p : ChVector3d) : stmt :=
  modify h (on_camera (fun c =>
    {| angle := angle c; position := position c; aim_point := aim_point c;
       up_vector := Some p |})) ;;
  emit (Call_SetUpVector h p).

(** [sys.Add(h)]: the system receives the shared pointer; the call is
    recorded with the object it points to.  [main] only passes pointers that
    [make_shared] returned. *)
Definition sys_Add (h : handle) : stmt :=
  fun st =>
    match lookup h (objects st) with
    | Some o => (on_sys (Add L h o) ;; emit (Call_Add h o)) st
    | None => st
    end.

Definition sys_SetCollisionSystemType (t : CollisionSystemType) : stmt :=
  on_sys (SetCollisionSystemType L t) ;; emit (Call_SetCollisionSystemType t).

Definition sys_DoStepDynamics (step : float) : stmt :=
  on_sys (DoStepDynamics L step) ;; emit (Call_DoStepDynamics step).

Definition sys_GetChTime (st : state) : float := GetChTime L (sys st).

Definition cout (items : state -> list cout_item) : stmt :=
  fun st => emit (Call_cout (items st)) st.

(** The exporter holds a pointer to [sys] and reads it; its operations do
    not change the system. *)
Definition pov_exporter_SetTemplateFile (file : string) : stmt :=
  emit (Call_SetTemplateFile file).
Definition pov_exporter_SetBasePath (dir : string) : stmt :=
  emit (Call_SetBasePath dir).
Definition pov_exporter_SetLight (p : ChVector3d) (c : ChColor) (shadow : bool) : stmt :=
  emit (Call_SetLight p c shadow).
Definition pov_exporter_SetCustomPOVcommandsScript (script : string) : stmt :=
  emit (Call_SetCustomPOVcommandsScript script).
Definition pov_exporter_SetCamera (p aim : ChVector3d) (a : float) : stmt :=
  emit (Call_SetCamera p aim a).
Definition pov_exporter_AddAll : stmt := emit Call_AddAll.
Definition pov_exporter_ExportScript : stmt := emit Call_ExportScript.
Definition pov_exporter_ExportData : stmt := emit Call_ExportData.

(** ** The program *)

Definition TAB : string := String "009"%char EmptyString.

(** The argument of [SetCustomPOVcommandsScript]: one string literal whose
    source lines are joined by backslash-newline. *)
Definition custom_POV_commands : string :=
  " " ++
  TAB ++ "light_source {   " ++
  "      <2, 10, -3>  " ++
  TAB ++ "  color rgb<1.2,1.2,1.2> " ++
  "      area_light <4, 0, 0>, <0, 0, 4>, 8, 8 " ++
  "      adaptive 1 " ++
  "      jitter" ++
  "    } " ++
  TAB ++ "object{ Grid(1,0.02, rgb<0.7,0.8,0.8>, rgbt<1,1,1,1>) rotate <0, 0, 90>  } " ++
  "    ".

(** Exporter settings, up to [SetCustomPOVcommandsScript]. *)
Definition configure_exporter (out_dir : string) : stmt :=
  emit Call_ChPovRay ;;
  pov_exporter_SetTemplateFile
    (GetChronoDataFile L (CHRONO_DATA_DIR L) "POVRay_chrono_template.pov") ;;
  pov_exporter_SetBasePath out_dir ;;
  pov_exporter_SetLight (Vector3d (-3) 4 2)
    (Color 0x1.333334p-3 0x1.333334p-3 0x1.eb851ep-4) false ;;
  pov_exporter_SetCustomPOVcommandsScript custom_POV_commands.

(** The pendulum example: floor, pendulum and spherical constraint. *)
Definition build_pendulum : stmt :=
  sys_SetCollisionSystemType BULLET ;;
  make_shared floorBody (new_ChBodyEasyBox 10 2 10 3000 true false) ;;
  SetPos floorBody (Vector3d 0 (-2) 0) ;;
  SetFixed floorBody true ;;
  sys_Add floorBody ;;
  make_shared pendulumBody (new_ChBodyEasyBox 0.5 2 0.5 3000 true false) ;;
  SetPos pendulumBody (Vector3d 0 3 0) ;;
  SetLinVel pendulumBody (Vector3d 1 0 0) ;;
  sys_Add pendulumBody ;;
  make_shared sphericalLink
    (new_ChLinkMateGeneric true true true false false false) ;;
  (let link_position_abs := Frame (Vector3d 0 4 0) in
   Initialize sphericalLink pendulumBody floorBody false
     link_position_abs link_position_abs) ;;
  sys_Add sphericalLink.

(** Visual assets, the camera and the registration with the exporter. *)
Definition configure_view : stmt :=
  SetColor pendulumBody (Color 0x1.99999ap-3 0.5 0.25) ;;
  SetTexture floorBody
    (GetChronoDataFile L (CHRONO_DATA_DIR L) "textures/checker1.png") 2 2 ;;
  make_shared camera new_ChCamera ;;
  SetAngle camera 50 ;;
  SetPosition camera (Vector3d 0 3 (-10)) ;;
  SetAimPoint camera (Vector3d 0 1 0) ;;
  SetUpVector camera (Vector3d 0 (-1) 0) ;;
  pov_exporter_SetCamera (Vector3d 0 3 (-10)) (Vector3d 0 1 0) 50 ;;
  pov_exporter_AddAll.

(** The body of the [while] loop. *)
Definition loop_body : stmt :=
  sys_DoStepDynamics 0.01 ;;
  cout (fun st => [Str "time= "; Dbl (sys_GetChTime st); Endl]) ;;
  pov_exporter_ExportData.

(** [while (sys.GetChTime() < 1.5) { ... }], for at most [fuel]
    iterations.  The boolean tells whether the loop was left ([true]) or
    the iterations ran out with the guard still holding ([false]). *)
Fixpoint simulation_loop (fuel : nat) (st : state) : bool * state :=
  if (sys_GetChTime st <? 1.5)%float then
    match fuel with
    | O => (false, st)
    | S fuel' => simulation_loop fuel' (loop_body st)
    end
  else (true, st).

(** How a run ends: [main] returns a status, or it is still in the loop
    when the iterations run out. *)
Inductive outcome : Type :=
| Returned (status : Z)
| Looping.

Record run : Type := Run { run_calls : list call; run_outcome : outcome }.

(** Everything from the declaration of [realtime_timer] and [step_size]
    on. *)
Definition simulate (realtime_timer : ChRealtimeStepTimer) (step_size : float)
    (fuel : nat) (st : state) : run :=
  let (left, st') := simulation_loop fuel (pov_exporter_ExportScript st) in
  Run (calls st') (if left then Returned 0 else Looping).

(** [GetChronoOutputPath() + "POVRAY_1"]. *)
Definition out_dir : string := (GetChronoOutputPath L ++ "POVRAY_1")%string.

(** The state in which [main] reaches [ExportScript] when the directory was
    created: [sys] is declared after [SetChronoDataPath], then the exporter,
    the pendulum, the view and the timer are set up. *)
Definition prepared : state :=
  (configure_exporter out_dir ;; build_pendulum ;; configure_view ;;
   emit Call_ChRealtimeStepTimer)
    (State (ChSystemNSC L) []
       [Call_create_directory out_dir (create_directory L out_dir);
        Call_SetChronoDataPath (CHRONO_DATA_DIR L);
        Call_ChSystemNSC]).

Definition main (fuel : nat) (argc : Z) (argv : list string) : run :=
  if negb (create_directory L out_dir) then
    Run [Call_create_directory out_dir (create_directory L out_dir);
         Call_cout [Str "Error creating directory "; Str out_dir; Endl]]
        (Returned 1)
  else
    let st := prepared in
    let realtime_timer := RealtimeStepTimer in
    let step_size := 5e-3%float in
    simulate realtime_timer step_size fuel st.

End Program.

Arguments State {L} _ _ _.
Arguments sys {L} _.
Arguments objects {L} _.
Arguments calls {L} _.

(** ** Concrete libraries *)

(** A library that keeps only the simulated time: a new system is at time
    0 and [DoStepDynamics step] adds [step] to the time in binary64
    arithmetic, as Chrono's time steppers do ([T += dt]).  [created] is
    what [create_directory] answers. *)
Definition stepping_chrono (created : bool) : Chrono := {|
  ChSystem := float;
  ChSystemNSC := 0%float;
  SetCollisionSystemType := fun _ t => t;
  Add := fun _ _ t => t;
  GetChTime := fun t => t;
  DoStepDynamics := fun step t => (t + step)%float;
  GetChronoOutputPath := "DEMO_OUTPUT/";
  GetChronoDataFile := fun dir file => (dir ++ file)%string;
  create_directory := fun _ => created;
  CHRONO_DATA_DIR := "data/"
|}.

(** A library whose steps are coarse: the time is 0, 0.5, 1, 1.5 after 0,
    1, 2 and at least 3 steps, whatever the step asked for. *)
Definition coarse_chrono : Chrono := {|
  ChSystem := nat;
  ChSystemNSC := O;
  SetCollisionSystemType := fun _ n => n;
  Add := fun _ _ n => n;
  GetChTime := fun n =>
    match n with
    | O => 0 | 1%nat => 0.5 | 2%nat => 1 | _ => 1.5
    end%float;
  DoStepDynamics := fun _ n => S n;
  GetChronoOutputPath := "DEMO_OUTPUT/";
  GetChronoDataFile := fun dir file => (dir ++ file)%string;
  create_directory := fun _ => true;
  CHRONO_DATA_DIR := "data/"
|}.

(** ** Observations on runs *)

Definition is_ExportScript (c : call) : bool :=
  match c with Call_ExportScript => true | _ => false end.

Definition is_ExportData (c : call) : bool :=
  match c with Call_ExportData => true | _ => false end.

Definition is_export (c : call) : bool := is_ExportScript c || is_ExportData c.

Definition is_Add (c : call) : bool :=
  match c with Call_Add _ _ => true | _ => false end.

Definition is_Spin (c : call) : bool :=
  match c with Call_Spin _ => true | _ => false end.

(** How many calls of a list satisfy [p]. *)
Definition count (p : call -> bool) (cs : list call) : nat :=
  List.length (filter p cs).

(** The steps passed to [DoStepDynamics], in call order. *)
Fixpoint steps_requested (cs : list call) : list float :=
  match cs with
  | [] => []
  | Call_DoStepDynamics step :: cs' => step :: steps_requested cs'
  | _ :: cs' => steps_requested cs'
  end.

Fixpoint doubles (items : list cout_item) : list float :=
  match items with
  | [] => []
  | Dbl d :: items' => d :: doubles items'
  | _ :: items' => doubles items'
  end.

(** The [double]s inserted into [cout], in order; [shown] below gives the
    number each is written as. *)
Fixpoint printed_times (cs : list call) : list float :=
  match cs with
  | [] => []
  | Call_cout items :: cs' => doubles items ++ printed_times cs'
  | _ :: cs' => printed_times cs'
  end.

(** The calls of one loop iteration that reads time [t] after its step. *)
Definition iteration_calls (t : float) : list call :=
  [Call_DoStepDynamics 0.01;
   Call_cout [Str "time= "; Dbl t; Endl];
   Call_ExportData].

Section Stepping.

Context (L : Chrono).

(** The loop guard, on the system. *)
Definition guard (s : ChSystem L) : bool := (GetChTime L s <? 1.5)%float.

(** The system after [n] calls of [DoStepDynamics(0.01)]. *)
Fixpoint steps (n : nat) (s : ChSystem L) : ChSystem L :=
  match n with
  | O => s
  | S n' => DoStepDynamics L 0.01 (steps n' s)
  end.

(** The times read after each of the first [n] steps. *)
Definition times (n : nat) (s : ChSystem L) : list float :=
  map (fun i => GetChTime L (steps i s)) (seq 1 n).

(** The loop with a counter instead of a body: the number of iterations
    that [simulation_loop fuel] executes from system [s]. *)
Fixpoint iterations (fuel : nat) (s : ChSystem L) : nat :=
  if guard s then
    match fuel with
    | O => O
    | S fuel' => S (iterations fuel' (DoStepDynamics L 0.01 s))
    end
  else O.

End Stepping.

Arguments guard {L} _.

(** The time after [n] additions of the literal [0.01] to 0, in binary64
    arithmetic. *)
Fixpoint time_after (n : nat) : float :=
  match n with
  | O => 0
  | S n' => time_after n' + 0.01
  end%float.

(** ** The number a binary64 value denotes *)

Definition pow2 (e : Z) : Q :=
  match e with
  | Z0 => 1%Q
  | Zpos p => inject_Z (Z.pow_pos 2 p)
  | Zneg p => (1 # Pos.pow 2 p)%Q
  end.

Definition SF2Q (x : spec_float) : option Q :=
  match x with
  | S754_zero _ => Some 0%Q
  | S754_finite s m e =>
      Some (inject_Z (if s then Zneg m else Zpos m) * pow2 e)%Q
  | S754_infinity _ | S754_nan => None
  end.

(** The rational number denoted by a finite [double]. *)
Definition value (t : float) : option Q := SF2Q (Prim2SF t).

(** ** Binary64 addition of the step *)

(** The literal [0.01] is the binary64 number [step_mantissa * 2^-59]. *)
Definition step_mantissa : positive := 5764607523034235.

(** What [shr] keeps of an integer [M] shifted right by [k] bits: the
    quotient, and in the round and sticky bits where the remainder lies
    with respect to one half. *)
Definition shr_inv (M k : Z) (mrs : shr_record) : Prop :=
  (0 <= shr_m mrs /\ 0 <= k /\
   exists R, M = shr_m mrs * 2 ^ k + R /\ 0 <= R < 2 ^ k /\
     match shr_r mrs, shr_s mrs with
     | false, false => R = 0
     | false, true => 0 < 2 * R < 2 ^ k
     | true, false => 2 * R = 2 ^ k
     | true, true => 2 ^ k < 2 * R
     end)%Z.

(** [m1] is [M / 2^k] rounded to the nearest integer, ties to even. *)
Definition rounds_to (M k m1 : Z) : Prop :=
  (exists m R, M = m * 2 ^ k + R /\ 0 <= R < 2 ^ k /\ 0 <= m /\
     ((2 * R < 2 ^ k /\ m1 = m) \/
      (2 * R = 2 ^ k /\ m1 = if Z.even m then m else m + 1) \/
      (2 ^ k < 2 * R /\ m1 = m + 1)))%Z.

(** Comparison of positive finite numbers: exponents first, then
    mantissas. *)
Definition lex_compare (e : Z) (m : positive) (e' : Z) (m' : positive) :
    comparison :=
  match Z.compare e e' with
  | Lt => Lt
  | Gt => Gt
  | Eq => Pos.compare m m'
  end.

(** A positive finite number with an exponent from [lo] to [hi]. *)
Definition exponent_between (lo hi : Z) (x : spec_float) : bool :=
  match x with
  | S754_finite false _ e => (lo <=? e)%Z && (e <=? hi)%Z
  | _ => false
  end.

(** The times from 1/128 up to 2, excluded: a 53-bit mantissa and an
    exponent from -59 to -52. *)
Definition in_step_range (t : float) : bool :=
  exponent_between (-59) (-52) (Prim2SF t).

(** ** Further libraries and observations *)

(** A library whose clock stands still: the time is 0 whatever is done. *)
Definition frozen_chrono : Chrono := {|
  ChSystem := unit;
  ChSystemNSC := tt;
  SetCollisionSystemType := fun _ s => s;
  Add := fun _ _ s => s;
  GetChTime := fun _ => 0%float;
  DoStepDynamics := fun _ s => s;
  GetChronoOutputPath := "DEMO_OUTPUT/";
  GetChronoDataFile := fun dir file => (dir ++ file)%string;
  create_directory := fun _ => true;
  CHRONO_DATA_DIR := "data/"
|}.

(** The library that adds the step to the time, with a new system at time
    [t0]. *)
Definition started_chrono (t0 : float) : Chrono := {|
  ChSystem := float;
  ChSystemNSC := t0;
  SetCollisionSystemType := fun _ t => t;
  Add := fun _ _ t => t;
  GetChTime := fun t => t;
  DoStepDynamics := fun step t => (t + step)%float;
  GetChronoOutputPath := "DEMO_OUTPUT/";
  GetChronoDataFile := fun dir file => (dir ++ file)%string;
  create_directory := fun _ => true;
  CHRONO_DATA_DIR := "data/"
|}.

(** The time after [n] steps of 1/128, each exact in binary64. *)
Fixpoint fine_time (n : nat) : float :=
  match n with
  | O => 0
  | S n' => fine_time n' + 0.0078125
  end%float.

(** A library whose steps are finer than asked for: the time advances by
    1/128 per step until it is 1.5, after 192 steps. *)
Definition fine_chrono : Chrono := {|
  ChSystem := nat;
  ChSystemNSC := O;
  SetCollisionSystemType := fun _ n => n;
  Add := fun _ _ n => n;
  GetChTime := fun n => fine_time (Nat.min n 192);
  DoStepDynamics := fun _ n => S n;
  GetChronoOutputPath := "DEMO_OUTPUT/";
  GetChronoDataFile := fun dir file => (dir ++ file)%string;
  create_directory := fun _ => true;
  CHRONO_DATA_DIR := "data/"
|}.

Definition is_DoStepDynamics (c : call) : bool :=
  match c with Call_DoStepDynamics _ => true | _ => false end.

Definition is_create_directory (c : call) : bool :=
  match c with Call_create_directory _ _ => true | _ => false end.

Definition is_AddAll (c : call) : bool :=
  match c with Call_AddAll => true | _ => false end.

(** The shared objects that a call is made on or is given. *)
Definition handles_of (c : call) : list handle :=
  match c with
  | Call_make_shared h _ | Call_SetPos h _ | Call_SetFixed h _
  | Call_SetLinVel h _ | Call_Add h _ | Call_SetColor h _
  | Call_SetTexture h _ _ _ | Call_SetAngle h _ | Call_SetPosition h _
  | Call_SetAimPoint h _ | Call_SetUpVector h _ => [h]
  | Call_Initialize h b1 b2 _ _ _ => [h; b1; b2]
  | _ => []
  end.

(** The calls made on the camera object itself. *)
Definition is_camera_setup (c : call) : bool :=
  match c with
  | Call_make_shared camera _ | Call_SetAngle camera _
  | Call_SetPosition camera _ | Call_SetAimPoint camera _
  | Call_SetUpVector camera _ => true
  | _ => false
  end.

(** [t'] is finite and exceeds the finite [t] by at most [d]. *)
Definition increases_by_at_most (d : Q) (t t' : float) : Prop :=
  match value t, value t' with
  | Some q, Some q' => (q' <= q + d)%Q
  | _, _ => False
  end.

(** ** What is written for a [double] *)

(** [main] sets no flag, precision or manipulator on [std::cout], so
    [operator<<] writes a [double] as [printf] does for [%g] with
    precision 6: the numeral of at most six significant decimal digits that
    is nearest to the value.  [shown t] is the number this numeral denotes;
    infinities and NaN are written as words and denote none. *)

Definition pow10 (x : Z) : Q :=
  match x with
  | Z0 => 1%Q
  | Zpos p => inject_Z (Z.pow_pos 10 p)
  | Zneg p => (1 # Pos.pow 10 p)%Q
  end.

(** The exponent of the leading decimal digit of [q > 0]: the largest [x],
    searched downwards, with [10^x <= q]. *)
Fixpoint decimal_exponent_from (n : nat) (x : Z) (q : Q) : Z :=
  match n with
  | O => x
  | S n' =>
      if Qle_bool (pow10 x) q then x
      else decimal_exponent_from n' (x - 1)%Z q
  end.

(** A positive [double] lies between [10^-324] and [10^309]. *)
Definition decimal_exponent (q : Q) : Z := decimal_exponent_from 632 308 q.

(** The nearest integer, ties to even. *)
Definition round_half_even (q : Q) : Z :=
  let f := Qfloor q in
  match (q - inject_Z f ?= 1 # 2)%Q with
  | Lt => f
  | Eq => if Z.even f then f else (f + 1)%Z
  | Gt => (f + 1)%Z
  end.

(** [q > 0] rounded to six significant decimal digits, in lowest terms. *)
Definition six_digits (q : Q) : Q :=
  let unit := pow10 (decimal_exponent q - 5) in
  Qred (inject_Z (round_half_even (q / unit)) * unit).

Definition shown (t : float) : option Q :=
  match value t with
  | None => None
  | Some q =>
      Some match (q ?= 0)%Q with
           | Eq => 0%Q
           | Gt => six_digits q
           | Lt => Qopp (six_digits (Qopp q))
           end
  end.

Definition Q_eqb (p q : Q) : bool :=
  (Qnum p =? Qnum q)%Z && (Qden p =? Qden q)%positive.

(** [t] is written as the numeral of [q]. *)
Definition shown_as (t : float) (q : Q) : bool :=
  match shown t with
  | Some p => Q_eqb p q
  | None => false
  end.

(** The number written in iteration [k] of a run whose steps add the
    literal to the time. *)
Definition hundredths (k : nat) : Q := Qred (Z.of_nat k # 100).

(** * Properties *)

(** ** Runs on concrete libraries *)

Example literal_step_value :
  value 0.01 = Some (5764607523034235 # 576460752303423488)%Q.
Proof. reflexivity. Qed.

Example limit_value :
  value 1.5 = Some (6755399441055744 # 4503599627370496)%Q.
Proof. reflexivity. Qed.

Example time_after_150 : time_after 150 = 0x1.8000000000005p+0%float.
Proof. vm_compute. reflexivity. Qed.

Example two_iterations :
  printed_times (run_calls (main (stepping_chrono true) 2 1 ["my_example"])) =
    [0.01; 0.02]%float /\
  run_outcome (main (stepping_chrono true) 2 1 ["my_example"]) = Looping.
Proof. split; reflexivity. Qed.

Example coarse_run :
  printed_times (run_calls (main coarse_chrono 5 1 ["my_example"])) =
    [0.5; 1; 1.5]%float /\
  run_outcome (main coarse_chrono 5 1 ["my_example"]) = Returned 0.
Proof. split; reflexivity. Qed.

(** ** The loop *)

Section LoopFacts.

Context (L : Chrono).

Lemma loop_body_eq (st : state L) :
  loop_body L st =
  State (DoStepDynamics L 0.01 (sys st)) (objects st)
    (calls st ++ iteration_calls (GetChTime L (DoStepDynamics L 0.01 (sys st)))).
Proof.
  unfold loop_body, seq_stmt, sys_DoStepDynamics, cout, pov_exporter_ExportData,
    seq_stmt, on_sys, emit, sys_GetChTime, iteration_calls.
  cbn [sys objects calls]. now rewrite <- !app_assoc.
Qed.

Lemma steps_front (n : nat) (s : ChSystem L) :
  steps L (S n) s = steps L n (DoStepDynamics L 0.01 s).
Proof.
  induction n as [|n IH]; [reflexivity|].
  change (steps L (S (S n)) s) with (DoStepDynamics L 0.01 (steps L (S n) s)).
  now rewrite IH.
Qed.

Lemma times_front (n : nat) (s : ChSystem L) :
  times L (S n) s =
  GetChTime L (DoStepDynamics L 0.01 s) :: times L n (DoStepDynamics L 0.01 s).
Proof.
  unfold times. cbn [seq map]. f_equal.
  rewrite <- seq_shift, map_map. apply map_ext. intros i. now rewrite steps_front.
Qed.

Lemma times_length (n : nat) (s : ChSystem L) : List.length (times L n s) = n.
Proof. unfold times. now rewrite length_map, length_seq. Qed.

Lemma times_nth (n i : nat) (s : ChSystem L) (d : float) :
  (i < n)%nat -> nth i (times L n s) d = GetChTime L (steps L (S i) s).
Proof.
  intros Hi. unfold times.
  rewrite nth_indep with (d' := GetChTime L (steps L 0 s))
    by now rewrite length_map, length_seq.
  rewrite (map_nth (fun i => GetChTime L (steps L i s))), seq_nth by assumption.
  reflexivity.
Qed.

(** What [simulation_loop] computes, in terms of the number of iterations
    it executes. *)
Lemma simulation_loop_unfold (fuel : nat) (st : state L) :
  simulation_loop L fuel st =
  (negb (guard (steps L (iterations L fuel (sys st)) (sys st))),
   State (steps L (iterations L fuel (sys st)) (sys st)) (objects st)
     (calls st ++
      flat_map iteration_calls (times L (iterations L fuel (sys st)) (sys st)))).
Proof.
  revert st. induction fuel as [|fuel IH]; intros [s os cs];
    cbn [simulation_loop iterations sys objects calls]; unfold sys_GetChTime;
    cbn [sys]; fold (guard s); destruct (guard s) eqn:G.
  - cbn [steps times]. rewrite G. cbn. now rewrite app_nil_r.
  - cbn [steps times]. rewrite G. cbn. now rewrite app_nil_r.
  - rewrite IH, loop_body_eq. cbn [sys objects calls].
    rewrite steps_front, times_front. cbn [flat_map].
    now rewrite <- app_assoc.
  - cbn [steps times]. rewrite G. cbn. now rewrite app_nil_r.
Qed.

Lemma iterations_le (fuel : nat) (s : ChSystem L) :
  (iterations L fuel s <= fuel)%nat.
Proof.
  revert s. induction fuel as [|fuel IH]; intros s; cbn [iterations];
    destruct (guard s); try lia.
  specialize (IH (DoStepDynamics L 0.01 s)). lia.
Qed.

(** The guard held before each executed iteration. *)
Lemma guard_before_iteration (fuel i : nat) (s : ChSystem L) :
  (i < iterations L fuel s)%nat -> guard (steps L i s) = true.
Proof.
  revert i s. induction fuel as [|fuel IH]; intros i s; cbn [iterations];
    destruct (guard s) eqn:G; try lia.
  destruct i as [|i]; [now intros _|].
  intros Hi. rewrite steps_front. apply IH. lia.
Qed.

(** The loop stopped because the iterations ran out, or because the guard
    failed. *)
Lemma iterations_stop (fuel : nat) (s : ChSystem L) :
  iterations L fuel s = fuel \/ guard (steps L (iterations L fuel s) s) = false.
Proof.
  revert s. induction fuel as [|fuel IH]; intros s; cbn [iterations];
    destruct (guard s) eqn:G; auto.
  destruct (IH (DoStepDynamics L 0.01 s)) as [H|H].
  - left. now rewrite H.
  - right. now rewrite steps_front.
Qed.

(** With the guard holding before each of the first [n] steps, the loop
    executes [n] iterations if it is given that many. *)
Lemma iterations_at_least (n fuel : nat) (s : ChSystem L) :
  (forall i, (i < n)%nat -> guard (steps L i s) = true) ->
  (n <= fuel)%nat -> (n <= iterations L fuel s)%nat.
Proof.
  revert fuel s. induction n as [|n IH]; intros fuel s Hg Hn; [lia|].
  destruct fuel as [|fuel]; [lia|]. cbn [iterations].
  assert (G0 : guard s = true) by (apply (Hg 0%nat); lia).
  rewrite G0. apply le_n_S, IH; [|lia].
  intros i Hi. rewrite <- steps_front. apply Hg. lia.
Qed.

(** The guard fails first after [n] steps: the loop executes exactly [n]
    iterations, given at least [n]. *)
Lemma iterations_exact (n fuel : nat) (s : ChSystem L) :
  (forall i, (i < n)%nat -> guard (steps L i s) = true) ->
  guard (steps L n s) = false ->
  (n <= fuel)%nat -> iterations L fuel s = n.
Proof.
  intros Hg Hn Hf.
  pose proof (iterations_at_least n fuel s Hg Hf) as Hge.
  destruct (Nat.eq_dec (iterations L fuel s) n) as [|Hne]; [assumption|].
  assert (Hlt : (n < iterations L fuel s)%nat) by lia.
  apply guard_before_iteration in Hlt. congruence.
Qed.

Lemma iterations_short (n fuel : nat) (s : ChSystem L) :
  (forall i, (i < n)%nat -> guard (steps L i s) = true) ->
  (fuel <= n)%nat -> iterations L fuel s = fuel.
Proof.
  intros Hg Hf.
  assert (fuel <= iterations L fuel s)%nat.
  { apply iterations_at_least; [|lia]. intros i Hi. apply Hg. lia. }
  pose proof (iterations_le fuel s). lia.
Qed.

End LoopFacts.

(** ** Counting calls *)

(** Writes the calls after [ExportScript] as a list appended to it, so that
    the lemmas on [++] apply to the calls of a run. *)
Ltac isolate_ExportScript :=
  change (Call_ExportScript :: ?l) with ([Call_ExportScript] ++ l).

Lemma count_app (p : call -> bool) (cs cs' : list call) :
  count p (cs ++ cs') = (count p cs + count p cs')%nat.
Proof. unfold count. now rewrite filter_app, length_app. Qed.

Lemma count_ExportData_iterations (ts : list float) :
  count is_ExportData (flat_map iteration_calls ts) = List.length ts.
Proof.
  induction ts as [|t ts IH]; [reflexivity|].
  cbn [flat_map]. rewrite count_app, IH. reflexivity.
Qed.

(** ** Steps of exactly 0.01 *)

Lemma time_after_below_limit (i : nat) :
  (i < 150)%nat -> (time_after i <? 1.5)%float = true.
Proof.
  intros Hi.
  assert (H : forallb (fun i => (time_after i <? 1.5)%float) (seq 0 150) = true)
    by (vm_compute; reflexivity).
  rewrite forallb_forall in H. apply H, in_seq. lia.
Qed.

Lemma time_after_150_reaches_limit : (time_after 150 <? 1.5)%float = false.
Proof. vm_compute. reflexivity. Qed.

Section ExactSteps.

Context (L : Chrono).

Hypothesis exact_step :
  forall s, guard s = true ->
    GetChTime L (DoStepDynamics L 0.01 s) = (GetChTime L s + 0.01)%float.

Lemma time_of_steps (s : ChSystem L) (n : nat) :
  GetChTime L s = 0%float -> (n <= 150)%nat ->
  GetChTime L (steps L n s) = time_after n.
Proof.
  intros H0. induction n as [|n IH]; intros Hn; [assumption|].
  cbn [steps time_after]. rewrite exact_step.
  - now rewrite IH by lia.
  - unfold guard. rewrite IH by lia. apply time_after_below_limit. lia.
Qed.

Lemma times_exact (s : ChSystem L) (n : nat) :
  GetChTime L s = 0%float -> (n <= 150)%nat ->
  times L n s = map time_after (seq 1 n).
Proof.
  intros H0 Hn. unfold times. apply map_ext_in. intros i Hi.
  apply in_seq in Hi. apply time_of_steps; [assumption|lia].
Qed.

Lemma iterations_exact_steps (s : ChSystem L) (fuel : nat) :
  GetChTime L s = 0%float ->
  iterations L fuel s = Nat.min fuel 150.
Proof.
  intros H0.
  assert (Hg : forall i, (i < 150)%nat -> guard (steps L i s) = true).
  { intros i Hi. unfold guard. rewrite time_of_steps by (assumption || lia).
    now apply time_after_below_limit. }
  destruct (Nat.le_gt_cases 150 fuel) as [Hf|Hf].
  - rewrite Nat.min_r by assumption.
    apply iterations_exact; try assumption.
    unfold guard. rewrite time_of_steps by (assumption || lia).
    apply time_after_150_reaches_limit.
  - rewrite Nat.min_l by lia.
    apply iterations_short with (n := 150%nat); [assumption|lia].
Qed.

End ExactSteps.

(** ** Comparison with 1.5 and the number denoted *)

Lemma digits2_pos_bound (m : positive) :
  (Zpos m < 2 ^ Zpos (digits2_pos m))%Z.
Proof.
  induction m as [m IH|m IH|]; cbn [digits2_pos];
    rewrite ?Pos2Z.inj_succ, ?Z.pow_succ_r by lia; lia.
Qed.

(** The mantissa of a binary64 number has at most 53 bits. *)
Lemma valid_mantissa_bound (s : bool) (m : positive) (e : Z) :
  valid_binary (S754_finite s m e) = true ->
  (Zpos m < 2 ^ 53)%Z.
Proof.
  unfold SpecFloat.valid_binary, bounded, canonical_mantissa, fexp, emin.
  intros H. apply andb_prop in H. destruct H as [H _].
  apply Z.eqb_eq in H.
  assert (Hd : (Zpos (digits2_pos m) <= 53)%Z) by (unfold prec in H; lia).
  pose proof (digits2_pos_bound m) as Hm.
  assert (2 ^ Zpos (digits2_pos m) <= 2 ^ 53)%Z
    by (apply Z.pow_le_mono_r; lia).
  lia.
Qed.

Lemma digits2_pos_lower (m : positive) :
  (2 ^ (Zpos (digits2_pos m) - 1) <= Zpos m)%Z.
Proof.
  induction m as [m IH|m IH|]; cbn [digits2_pos]; [| |cbn; lia];
    rewrite Pos2Z.inj_succ;
    replace (Z.succ (Zpos (digits2_pos m)) - 1)%Z
      with (Z.succ (Zpos (digits2_pos m) - 1)) by lia;
    rewrite Z.pow_succ_r by lia; lia.
Qed.

(** A binary64 number with an exponent above -1074 has a 53-bit
    mantissa. *)
Lemma valid_normal_mantissa (s : bool) (m : positive) (e : Z) :
  valid_binary (S754_finite s m e) = true -> (-1074 < e)%Z ->
  (2 ^ 52 <= Zpos m)%Z.
Proof.
  unfold SpecFloat.valid_binary, bounded, canonical_mantissa, fexp, emin.
  intros H He. apply andb_prop in H. destruct H as [H _].
  apply Z.eqb_eq in H.
  assert (Hd : Zpos (digits2_pos m) = 53%Z)
    by (unfold prec, emax in H; lia).
  pose proof (digits2_pos_lower m) as Hm. rewrite Hd in Hm. exact Hm.
Qed.

Lemma pow2_neg_bound (p : positive) :
  (53 <= Zpos p)%Z -> (2 ^ 53 <= Zpos (2 ^ p))%Z.
Proof.
  intros H. rewrite Pos2Z.inj_pow. apply Z.pow_le_mono_r; lia.
Qed.

Lemma pow2_pos (e : Z) : (0 < Qnum (pow2 e))%Z.
Proof.
  destruct e as [|p|p]; cbn [pow2 Qnum inject_Z]; lia.
Qed.

Lemma SF_below_limit (x : spec_float) (q : Q) :
  valid_binary x = true ->
  SFltb x (S754_finite false 6755399441055744 (-52)) = true ->
  SF2Q x = Some q -> (q < 3 # 2)%Q.
Proof.
  intros Hv Hlt Hq. destruct x as [s|s| |s m e]; cbn [SF2Q] in Hq;
    try discriminate; injection Hq as <-.
  - reflexivity.
  - apply valid_mantissa_bound in Hv.
    unfold SFltb, SFcompare in Hlt. destruct s.
    + pose proof (pow2_pos e) as Hp. pose proof (Pos2Z.neg_is_neg m) as Hm.
      unfold Qlt. cbn [Qnum Qden Qmult inject_Z].
      assert (Z.neg m * Qnum (pow2 e) < 0)%Z by (apply Z.mul_neg_pos; lia).
      lia.
    + destruct (Z.compare_spec e (-52)) as [He|He|He]; try discriminate Hlt.
      * subst e.
        rewrite Pos.compare_cont_spec in Hlt. cbn [Pos.switch_Eq] in Hlt.
        destruct (Pos.compare_spec m 6755399441055744%positive) as [Hm|Hm|Hm];
          try discriminate Hlt.
        unfold pow2, Qlt. cbn [Qnum Qden Qmult inject_Z].
        change (Z.pos (1 * 2 ^ 52)) with 4503599627370496%Z.
        apply Pos2Z.pos_lt_pos in Hm. lia.
      * destruct e as [|p|p]; try lia.
        assert (Hp : (53 <= Zpos p)%Z) by lia.
        apply pow2_neg_bound in Hp.
        unfold pow2, Qlt. cbn [Qnum Qden Qmult inject_Z].
        rewrite Pos.mul_1_l. lia.
Qed.

(** A time below the loop limit denotes a number below 3/2. *)
Lemma below_limit_value (t : float) (q : Q) :
  (t <? 1.5)%float = true -> value t = Some q -> (q < 3 # 2)%Q.
Proof.
  rewrite ltb_spec. intros Hlt Hq.
  apply SF_below_limit with (x := Prim2SF t); try assumption.
  apply Prim2SF_valid.
Qed.

(** ** Binary64 addition of the step is monotone *)

Section StepAddition.

Local Open Scope Z_scope.

Lemma shr_1_nonneg (m : Z) (r s : bool) :
  0 <= m ->
  shr_1 (Build_shr_record m r s) = Build_shr_record (Z.div2 m) (Z.odd m) (r || s).
Proof. destruct m as [|[p|p|]|p]; intros H; try reflexivity; lia. Qed.

(** One more shift keeps the account of the remainder. *)
Lemma shr_inv_step (M k : Z) (mrs : shr_record) :
  shr_inv M k mrs -> shr_inv M (k + 1) (shr_1 mrs).
Proof.
  destruct mrs as [m r s]. unfold shr_inv. cbn [shr_m shr_r shr_s].
  intros [Hm [Hk [R [HM [HR Hloc]]]]]. rewrite shr_1_nonneg by assumption.
  cbn [shr_m shr_r shr_s].
  assert (HP : 0 < 2 ^ k) by (apply Z.pow_pos_nonneg; lia).
  rewrite Z.pow_add_r, Z.pow_1_r by lia.
  pose proof (Z.div2_odd m) as Hd.
  set (P := 2 ^ k) in *. set (h := Z.div2 m) in *.
  split; [subst h; apply Z.div2_nonneg; assumption|]. split; [lia|].
  exists ((if Z.odd m then 1 else 0) * P + R).
  destruct (Z.odd m); cbn [Z.b2z] in Hd.
  - split; [rewrite HM, Hd; ring|]. split; [lia|].
    destruct r, s; cbn [orb]; lia.
  - split; [rewrite HM, Hd; ring|]. split; [lia|].
    destruct r, s; cbn [orb]; lia.
Qed.

Lemma shr_inv_iter (M : Z) (p : positive) :
  forall k mrs, shr_inv M k mrs -> shr_inv M (k + Zpos p) (iter_pos shr_1 p mrs).
Proof.
  induction p as [p IH|p IH|]; intros k mrs H; cbn [iter_pos].
  - replace (k + Zpos p~1) with (k + 1 + Zpos p + Zpos p) by lia.
    apply IH, IH. now apply shr_inv_step.
  - replace (k + Zpos p~0) with (k + Zpos p + Zpos p) by lia.
    now apply IH, IH.
  - now apply shr_inv_step.
Qed.

(** [shr] by [n] bits leaves the quotient by [2^n] and the position of the
    remainder. *)
Lemma shr_spec (M e n : Z) (mrs : shr_record) :
  0 <= n -> shr_inv M 0 mrs ->
  exists mrs', shr mrs e n = (mrs', e + n) /\ shr_inv M n mrs'.
Proof.
  intros Hn H. destruct n as [|p|p]; [| |lia].
  - exists mrs. rewrite Z.add_0_r. now split.
  - exists (iter_pos shr_1 p mrs). split; [reflexivity|].
    now apply (shr_inv_iter M p 0).
Qed.

Lemma shr_inv_start (M : Z) :
  0 <= M -> shr_inv M 0 (Build_shr_record M false false).
Proof.
  intros H. unfold shr_inv. cbn. split; [assumption|]. split; [lia|].
  exists 0. lia.
Qed.

(** [round_nearest_even] on what [shr] left rounds the quotient to the
    nearest integer, ties to even. *)
Lemma round_nearest_even_spec (M k : Z) (mrs : shr_record) :
  shr_inv M k mrs ->
  rounds_to M k (round_nearest_even (shr_m mrs) (loc_of_shr_record mrs)).
Proof.
  destruct mrs as [m r s]. unfold shr_inv, rounds_to. cbn [shr_m shr_r shr_s].
  intros [Hm [Hk [R [HM [HR Hloc]]]]]. exists m, R.
  split; [assumption|]. split; [assumption|]. split; [assumption|].
  assert (HP : 0 < 2 ^ k) by (apply Z.pow_pos_nonneg; lia).
  destruct r, s; cbn [loc_of_shr_record round_nearest_even].
  - right; right. now split.
  - right; left. now split.
  - left. split; [lia|reflexivity].
  - left. split; [lia|reflexivity].
Qed.

(** Rounding to nearest at a fixed shift is monotone. *)
Lemma rounds_to_mono (M M' k a b : Z) :
  0 <= k -> rounds_to M k a -> rounds_to M' k b -> M <= M' -> a <= b.
Proof.
  intros Hk [m [R [HM [HR [Hm Ha]]]]] [m' [R' [HM' [HR' [Hm' Hb]]]]] Hle.
  assert (HP : 0 < 2 ^ k) by (apply Z.pow_pos_nonneg; lia).
  set (P := 2 ^ k) in *.
  assert (Hmm : m <= m').
  { destruct (Z.le_gt_cases m m') as [|Hgt]; [assumption|exfalso].
    assert ((m' + 1) * P <= m * P) by (apply Z.mul_le_mono_nonneg_r; lia).
    lia. }
  destruct (Z.eq_dec m m') as [->|Hne].
  - assert (R <= R') by lia.
    destruct (Z.even m'); lia.
  - destruct (Z.even m), (Z.even m'); lia.
Qed.

Lemma rounds_to_bounds (M k a lo : Z) :
  0 <= k -> rounds_to M k a -> lo * 2 ^ k <= M < 2 * lo * 2 ^ k -> 0 < lo ->
  lo <= a <= 2 * lo.
Proof.
  intros Hk [m [R [HM [HR [Hm Ha]]]]] HB Hlo.
  assert (HP : 0 < 2 ^ k) by (apply Z.pow_pos_nonneg; lia).
  set (P := 2 ^ k) in *.
  assert (lo <= m).
  { destruct (Z.le_gt_cases lo m) as [|Hgt]; [assumption|exfalso].
    assert ((m + 1) * P <= lo * P) by (apply Z.mul_le_mono_nonneg_r; lia).
    lia. }
  assert (m < 2 * lo).
  { destruct (Z.lt_ge_cases m (2 * lo)) as [|Hge]; [assumption|exfalso].
    assert (2 * lo * P <= m * P) by (apply Z.mul_le_mono_nonneg_r; lia).
    lia. }
  destruct (Z.even m); lia.
Qed.

Lemma digits2_pos_unique (p : positive) (k : Z) :
  2 ^ (k - 1) <= Zpos p < 2 ^ k -> Zpos (digits2_pos p) = k.
Proof.
  intros [Hlo Hhi].
  pose proof (digits2_pos_bound p) as Hb. pose proof (digits2_pos_lower p) as Hl.
  set (d := Zpos (digits2_pos p)) in *.
  destruct (Z.lt_trichotomy d k) as [H|[H|H]]; [exfalso|assumption|exfalso].
  - assert (2 ^ d <= 2 ^ (k - 1)) by (apply Z.pow_le_mono_r; lia). lia.
  - assert (2 ^ k <= 2 ^ (d - 1)) by (apply Z.pow_le_mono_r; lia). lia.
Qed.

(** Rounding an integer multiple [S] of [2^-59] of [d] bits, 53 at least:
    the result is positive and normal, and its mantissa is [S] shifted by
    [d - 53] bits and rounded to nearest, renormalised when the rounding
    reaches [2^53]. *)
Lemma binary_round_spec (S : positive) (d : Z) :
  d = Zpos (digits2_pos S) -> 53 <= d <= 100 ->
  exists (m1 : Z) (m2 : positive) (e2 : Z),
    binary_round prec emax false S (-59) = S754_finite false m2 e2 /\
    rounds_to (Zpos S) (d - 53) m1 /\
    2 ^ 52 <= m1 <= 2 ^ 53 /\
    Zpos m2 * 2 ^ (e2 + 59) = m1 * 2 ^ (d - 53) /\
    2 ^ 52 <= Zpos m2 < 2 ^ 53 /\ -59 <= e2 <= d - 111.
Proof.
  intros Hd Hr. unfold binary_round.
  assert (Hf : fexp prec emax (Zpos (digits2_pos S) + -59) = d - 112).
  { unfold fexp, emin, prec, emax. rewrite <- Hd. lia. }
  rewrite Hf.
  assert (Hal : shl_align S (-59) (d - 112) = (S, -59)).
  { unfold shl_align. destruct (d - 112 - -59) eqn:E; try reflexivity. lia. }
  rewrite Hal. unfold binary_round_aux.
  assert (Hs1 : shr_fexp prec emax (Zpos S) (-59) loc_Exact =
                shr (Build_shr_record (Zpos S) false false) (-59) (d - 53)).
  { unfold shr_fexp. cbn [shr_record_of_loc Zdigits2]. rewrite Hf.
    f_equal. lia. }
  destruct (shr_spec (Zpos S) (-59) (d - 53) (Build_shr_record (Zpos S) false false))
    as [mrs1 [E1 Inv1]]; [lia|apply shr_inv_start; lia|].
  rewrite Hs1, E1.
  pose proof (round_nearest_even_spec _ _ _ Inv1) as Hrnd.
  set (m1 := round_nearest_even (shr_m mrs1) (loc_of_shr_record mrs1)) in *.
  assert (Hb : 2 ^ 52 <= m1 <= 2 * 2 ^ 52).
  { apply (rounds_to_bounds (Zpos S) (d - 53)); [lia|assumption| |lia].
    pose proof (digits2_pos_bound S) as Hhi.
    pose proof (digits2_pos_lower S) as Hlo. rewrite <- Hd in Hhi, Hlo.
    replace (d - 1) with (52 + (d - 53)) in Hlo by lia.
    replace d with (1 + 52 + (d - 53)) in Hhi at 1 by lia.
    rewrite Z.pow_add_r in Hlo by lia.
    rewrite !Z.pow_add_r in Hhi by lia. lia. }
  exists m1.
  set (e1 := -59 + (d - 53)) in *.
  destruct (Z.eq_dec m1 (2 ^ 53)) as [Heq|Hne].
  - exists (2 ^ 52)%positive, (e1 + 1).
    assert (Hs2 : shr_fexp prec emax m1 e1 loc_Exact =
                  (Build_shr_record (2 ^ 52) false false, e1 + 1)).
    { rewrite Heq. unfold shr_fexp. cbn [shr_record_of_loc].
      change (Zdigits2 (2 ^ 53)) with 54.
      replace (fexp prec emax (54 + e1) - e1) with 1
        by (unfold fexp, emin, prec, emax; lia).
      reflexivity. }
    rewrite Hs2. cbn [shr_m].
    change (2 ^ 52) with (Zpos (2 ^ 52)).
    replace (e1 + 1 <=? emax - prec) with true
      by (symmetry; apply Z.leb_le; unfold emax, prec; lia).
    split; [reflexivity|]. split; [assumption|]. split; [lia|].
    split; [|split; [change (Zpos (2 ^ 52)) with (2 ^ 52); lia|lia]].
    rewrite Heq. change (Zpos (2 ^ 52)) with (2 ^ 52).
    replace (e1 + 1 + 59) with (1 + (d - 53)) by lia.
    rewrite Z.pow_add_r by lia. change (2 ^ 53) with (2 ^ 52 * 2 ^ 1). ring.
  - destruct m1 as [|p1|p1] eqn:Em; try lia.
    exists p1, e1.
    assert (Hdg : Zpos (digits2_pos p1) = 53)
      by (apply digits2_pos_unique; change (53 - 1) with 52; lia).
    assert (Hs2 : shr_fexp prec emax (Zpos p1) e1 loc_Exact =
                  (Build_shr_record (Zpos p1) false false, e1)).
    { unfold shr_fexp. cbn [shr_record_of_loc Zdigits2]. rewrite Hdg.
      replace (fexp prec emax (53 + e1) - e1) with 0
        by (unfold fexp, emin, prec, emax; lia).
      reflexivity. }
    rewrite Hs2. cbn [shr_m].
    replace (e1 <=? emax - prec) with true
      by (symmetry; apply Z.leb_le; unfold emax, prec; lia).
    split; [reflexivity|]. split; [assumption|]. split; [lia|].
    split; [|split; lia].
    do 2 f_equal. lia.
Qed.

Lemma iter_xO_value (m d : positive) :
  Zpos (Pos.iter xO m d) = Zpos m * 2 ^ Zpos d.
Proof.
  induction d as [|d IH] using Pos.peano_ind.
  - cbn [Pos.iter]. rewrite Z.pow_1_r. lia.
  - rewrite Pos.iter_succ, Pos2Z.inj_succ, Z.pow_succ_r by lia.
    rewrite Pos2Z.inj_xO, IH. ring.
Qed.

Lemma shl_align_value (m : positive) (e e' : Z) :
  e' <= e -> Zpos (fst (shl_align m e e')) = Zpos m * 2 ^ (e - e').
Proof.
  intros H. unfold shl_align. destruct (e' - e) as [|p|p] eqn:E; cbn [fst].
  - replace (e - e') with 0 by lia. rewrite Z.pow_0_r. lia.
  - lia.
  - rewrite iter_xO_value. do 2 f_equal. lia.
Qed.

(** The binary64 sum of a positive normal number with an exponent from -59
    to -52 and the literal 0.01: the exact sum in units of [2^-59], rounded
    as in [binary_round_spec]. *)
Lemma SFadd_step_spec (m : positive) (e : Z) :
  -59 <= e <= -52 -> 2 ^ 52 <= Zpos m < 2 ^ 53 ->
  exists (d m1 : Z) (m2 : positive) (e2 : Z),
    SFadd prec emax (S754_finite false m e)
      (S754_finite false step_mantissa (-59)) = S754_finite false m2 e2 /\
    2 ^ (d - 1) <= Zpos m * 2 ^ (e + 59) + Zpos step_mantissa < 2 ^ d /\
    rounds_to (Zpos m * 2 ^ (e + 59) + Zpos step_mantissa) (d - 53) m1 /\
    2 ^ 52 <= m1 <= 2 ^ 53 /\
    Zpos m2 * 2 ^ (e2 + 59) = m1 * 2 ^ (d - 53) /\
    2 ^ 52 <= Zpos m2 < 2 ^ 53 /\ -59 <= e2 /\ 53 <= d.
Proof.
  intros He Hm. unfold SFadd. rewrite Z.min_r by lia.
  cbn [cond_Zopp].
  change (fst (shl_align step_mantissa (-59) (-59))) with step_mantissa.
  pose proof (shl_align_value m e (-59) (proj1 He)) as Ha.
  replace (e - -59) with (e + 59) in Ha by lia.
  set (pa := fst (shl_align m e (-59))) in *.
  change (Z.pos pa + Z.pos step_mantissa) with (Zpos (pa + step_mantissa)).
  cbn [binary_normalize].
  assert (HS : Zpos (pa + step_mantissa) =
               Zpos m * 2 ^ (e + 59) + Zpos step_mantissa)
    by (rewrite Pos2Z.inj_add, Ha; reflexivity).
  set (S := (pa + step_mantissa)%positive) in *.
  assert (Hp1 : 1 <= 2 ^ (e + 59)) by (apply (Z.pow_le_mono_r 2 0); lia).
  assert (Hp2 : 2 ^ (e + 59) <= 2 ^ 7) by (apply Z.pow_le_mono_r; lia).
  assert (Hc : 0 < Zpos step_mantissa < 2 ^ 53) by (unfold step_mantissa; lia).
  assert (HSlo : 2 ^ 52 <= Zpos S) by nia.
  assert (HShi : Zpos S < 2 ^ 61).
  { rewrite HS. change (2 ^ 61) with (2 ^ 53 * 2 ^ 7 + 2 ^ 53 * 2 ^ 7).
    assert (Zpos m * 2 ^ (e + 59) <= 2 ^ 53 * 2 ^ 7)
      by (apply Z.mul_le_mono_nonneg; lia).
    lia. }
  pose proof (digits2_pos_bound S) as Hhi.
  pose proof (digits2_pos_lower S) as Hlo.
  set (d := Zpos (digits2_pos S)) in *.
  assert (Hd : 53 <= d <= 100).
  { split.
    - destruct (Z.le_gt_cases 53 d) as [|Hlt]; [assumption|exfalso].
      assert (2 ^ d <= 2 ^ 52) by (apply Z.pow_le_mono_r; lia). lia.
    - destruct (Z.le_gt_cases d 100) as [|Hlt]; [assumption|exfalso].
      assert (2 ^ 61 <= 2 ^ (d - 1)) by (apply Z.pow_le_mono_r; lia). lia. }
  destruct (binary_round_spec S d eq_refl Hd)
    as [m1 [m2 [e2 [E [Hr [Hb [HN [Hm2 He2]]]]]]]].
  exists d, m1, m2, e2. rewrite E, <- HS.
  repeat split; try assumption; lia.
Qed.

Lemma SFcompare_pos (m m' : positive) (e e' : Z) :
  SFcompare (S754_finite false m e) (S754_finite false m' e') =
  Some (lex_compare e m e' m').
Proof.
  unfold SFcompare, lex_compare. rewrite Pos.compare_cont_spec.
  destruct (m ?= m')%positive; reflexivity.
Qed.

Lemma lex_compare_le_trans (e1 e2 e3 : Z) (m1 m2 m3 : positive) :
  lex_compare e1 m1 e2 m2 <> Gt -> lex_compare e2 m2 e3 m3 <> Gt ->
  lex_compare e1 m1 e3 m3 <> Gt.
Proof.
  unfold lex_compare.
  destruct (Z.compare_spec e1 e2), (Z.compare_spec e2 e3),
    (Z.compare_spec e1 e3); try congruence; try lia.
  destruct (Pos.compare_spec m1 m2), (Pos.compare_spec m2 m3),
    (Pos.compare_spec m1 m3); try congruence; lia.
Qed.

Lemma lex_compare_le_lt_trans (e1 e2 e3 : Z) (m1 m2 m3 : positive) :
  lex_compare e1 m1 e2 m2 <> Gt -> lex_compare e2 m2 e3 m3 = Lt ->
  lex_compare e1 m1 e3 m3 = Lt.
Proof.
  unfold lex_compare.
  destruct (Z.compare_spec e1 e2), (Z.compare_spec e2 e3),
    (Z.compare_spec e1 e3); try congruence; try lia.
  destruct (Pos.compare_spec m1 m2), (Pos.compare_spec m2 m3),
    (Pos.compare_spec m1 m3); try congruence; lia.
Qed.

Lemma SFleb_pos (m m' : positive) (e e' : Z) :
  SFleb (S754_finite false m e) (S754_finite false m' e') = true <->
  lex_compare e m e' m' <> Gt.
Proof.
  unfold SFleb. rewrite SFcompare_pos.
  destruct (lex_compare e m e' m'); split; congruence.
Qed.

Lemma SFltb_pos (m m' : positive) (e e' : Z) :
  SFltb (S754_finite false m e) (S754_finite false m' e') = true <->
  lex_compare e m e' m' = Lt.
Proof.
  unfold SFltb. rewrite SFcompare_pos.
  destruct (lex_compare e m e' m'); split; congruence.
Qed.

Lemma SFleb_trans_pos (m1 m2 : positive) (e1 e2 : Z) (z : spec_float) :
  SFleb (S754_finite false m1 e1) (S754_finite false m2 e2) = true ->
  SFleb (S754_finite false m2 e2) z = true ->
  SFleb (S754_finite false m1 e1) z = true.
Proof.
  intros H1 H2. destruct z as [s|s| |s m3 e3]; try discriminate H2.
  - destruct s; [discriminate H2|reflexivity].
  - destruct s; [discriminate H2|].
    apply SFleb_pos. apply SFleb_pos in H1, H2.
    now apply (lex_compare_le_trans e1 e2 e3 m1 m2 m3).
Qed.

Lemma SFleb_ltb_trans_pos (ma ml : positive) (ea el : Z) (t : spec_float) :
  SFleb (S754_finite false ma ea) t = true ->
  SFltb t (S754_finite false ml el) = true ->
  SFltb (S754_finite false ma ea) (S754_finite false ml el) = true.
Proof.
  intros H1 H2. destruct t as [s|s| |s m e]; try discriminate H1.
  - destruct s; discriminate.
  - destruct s; [discriminate H1|].
    apply SFltb_pos. apply SFleb_pos in H1. apply SFltb_pos in H2.
    now apply (lex_compare_le_lt_trans ea e el ma m ml).
Qed.

Lemma exponent_between_squeezed (lo hi : Z) (a t l : spec_float) :
  exponent_between lo hi a = true -> exponent_between lo hi l = true ->
  SFleb a t = true -> SFltb t l = true -> exponent_between lo hi t = true.
Proof.
  destruct a as [| | |[] ma ea]; try discriminate.
  destruct l as [| | |[] ml el]; try discriminate.
  cbn [exponent_between]. intros Ha Hl H1 H2.
  destruct t as [s|s| |s m e]; try discriminate H1.
  - destruct s; discriminate.
  - destruct s; [discriminate H1|]. cbn [exponent_between].
    apply SFleb_pos in H1. apply SFltb_pos in H2. unfold lex_compare in *.
    apply andb_prop in Ha, Hl. destruct Ha as [Ha1 Ha2], Hl as [Hl1 Hl2].
    apply Z.leb_le in Ha1, Ha2, Hl1, Hl2.
    apply andb_true_intro. rewrite !Z.leb_le.
    destruct (Z.compare_spec ea e), (Z.compare_spec e el); try congruence; lia.
Qed.

(** Order of normal numbers and of the integers they are multiples of. *)
Lemma normal_lt (m m' : positive) (e e' : Z) :
  Zpos m < 2 ^ 53 -> 2 ^ 52 <= Zpos m' -> -59 <= e -> e < e' ->
  Zpos m * 2 ^ (e + 59) < Zpos m' * 2 ^ (e' + 59).
Proof.
  intros Hm Hm' He Hee.
  assert (HP : 0 < 2 ^ (e + 59)) by (apply Z.pow_pos_nonneg; lia).
  assert (H1 : 2 * 2 ^ (e + 59) <= 2 ^ (e' + 59)).
  { rewrite <- Z.pow_succ_r by lia. apply Z.pow_le_mono_r; lia. }
  assert (H2 : Zpos m * 2 ^ (e + 59) < 2 ^ 53 * 2 ^ (e + 59))
    by (apply Z.mul_lt_mono_pos_r; lia).
  assert (H3 : 2 ^ 52 * 2 ^ (e' + 59) <= Zpos m' * 2 ^ (e' + 59))
    by (apply Z.mul_le_mono_nonneg_r; lia).
  change (2 ^ 53) with (2 ^ 52 * 2) in H2.
  assert (H4 : 2 ^ 52 * (2 * 2 ^ (e + 59)) <= 2 ^ 52 * 2 ^ (e' + 59))
    by (apply Z.mul_le_mono_nonneg_l; lia).
  lia.
Qed.

(** Normal numbers compare as the integers they are in units of
    [2^-59]. *)
Lemma lex_compare_normal (m m' : positive) (e e' : Z) :
  2 ^ 52 <= Zpos m < 2 ^ 53 -> 2 ^ 52 <= Zpos m' < 2 ^ 53 ->
  -59 <= e -> -59 <= e' ->
  (lex_compare e m e' m' <> Gt <->
   Zpos m * 2 ^ (e + 59) <= Zpos m' * 2 ^ (e' + 59)).
Proof.
  intros Hm Hm' He He'. unfold lex_compare.
  destruct (Z.compare_spec e e') as [->|Hlt|Hgt].
  - assert (HP : 0 < 2 ^ (e' + 59)) by (apply Z.pow_pos_nonneg; lia).
    destruct (Pos.compare_spec m m') as [->|H|H]; split; intros H'; 
      try congruence; try lia.
    + apply Z.mul_le_mono_nonneg_r; lia.
    + exfalso. apply Z.mul_le_mono_pos_r in H'; lia.
  - pose proof (normal_lt m m' e e'). split; [lia|congruence].
  - pose proof (normal_lt m' m e' e). split; [congruence|lia].
Qed.

(** Adding the literal 0.01 keeps the order of two positive normal numbers
    with exponents from -59 to -52. *)
Lemma SFadd_step_mono (m m' : positive) (e e' : Z) :
  -59 <= e <= -52 -> 2 ^ 52 <= Zpos m < 2 ^ 53 ->
  -59 <= e' <= -52 -> 2 ^ 52 <= Zpos m' < 2 ^ 53 ->
  SFleb (S754_finite false m e) (S754_finite false m' e') = true ->
  exists m2 e2 m2' e2',
    SFadd prec emax (S754_finite false m e)
      (S754_finite false step_mantissa (-59)) = S754_finite false m2 e2 /\
    SFadd prec emax (S754_finite false m' e')
      (S754_finite false step_mantissa (-59)) = S754_finite false m2' e2' /\
    SFleb (S754_finite false m2 e2) (S754_finite false m2' e2') = true.
Proof.
  intros He Hm He' Hm' Hle.
  apply SFleb_pos, lex_compare_normal in Hle; try lia.
  destruct (SFadd_step_spec m e He Hm)
    as [d [m1 [m2 [e2 [E [HS [Hr [Hb [HN [Hm2 [He2 Hd]]]]]]]]]]].
  destruct (SFadd_step_spec m' e' He' Hm')
    as [d' [m1' [m2' [e2' [E' [HS' [Hr' [Hb' [HN' [Hm2' [He2' Hd']]]]]]]]]]].
  exists m2, e2, m2', e2'. split; [assumption|]. split; [assumption|].
  apply SFleb_pos, lex_compare_normal; try lia.
  rewrite HN, HN'.
  set (S := Zpos m * 2 ^ (e + 59) + Zpos step_mantissa) in *.
  set (S' := Zpos m' * 2 ^ (e' + 59) + Zpos step_mantissa) in *.
  assert (HSS : S <= S') by (subst S S'; lia).
  assert (Hdd : d <= d').
  { destruct (Z.le_gt_cases d d') as [|Hgt]; [assumption|exfalso].
    assert (2 ^ d' <= 2 ^ (d - 1)) by (apply Z.pow_le_mono_r; lia). lia. }
  destruct (Z.eq_dec d d') as [<-|Hne].
  - assert (m1 <= m1') by (apply (rounds_to_mono S S' (d - 53)); assumption || lia).
    apply Z.mul_le_mono_nonneg_r; [apply Z.pow_nonneg|]; lia.
  - assert (HP : 0 < 2 ^ (d - 53)) by (apply Z.pow_pos_nonneg; lia).
    assert (H1 : 2 * 2 ^ (d - 53) <= 2 ^ (d' - 53)).
    { rewrite <- Z.pow_succ_r by lia. apply Z.pow_le_mono_r; lia. }
    assert (H2 : m1 * 2 ^ (d - 53) <= 2 ^ 53 * 2 ^ (d - 53))
      by (apply Z.mul_le_mono_nonneg_r; lia).
    assert (H3 : 2 ^ 52 * 2 ^ (d' - 53) <= m1' * 2 ^ (d' - 53))
      by (apply Z.mul_le_mono_nonneg_r; lia).
    change (2 ^ 53) with (2 ^ 52 * 2) in H2.
    assert (H4 : 2 ^ 52 * (2 * 2 ^ (d - 53)) <= 2 ^ 52 * 2 ^ (d' - 53))
      by (apply Z.mul_le_mono_nonneg_l; lia).
    lia.
Qed.

End StepAddition.

(** ** Times between 1/128 and 2 *)

Lemma in_step_range_inv (t : float) :
  in_step_range t = true ->
  exists m e, Prim2SF t = S754_finite false m e /\
    (-59 <= e <= -52)%Z /\ (2 ^ 52 <= Zpos m < 2 ^ 53)%Z.
Proof.
  unfold in_step_range. pose proof (Prim2SF_valid t) as Hv.
  destruct (Prim2SF t) as [s|s| |[] m e]; try discriminate.
  cbn [exponent_between]. intros H. apply andb_prop in H.
  destruct H as [H1 H2]. apply Z.leb_le in H1, H2.
  exists m, e. split; [reflexivity|]. split; [lia|]. split.
  - apply valid_normal_mantissa with (s := false) (e := e); [assumption|lia].
  - now apply valid_mantissa_bound with (s := false) (e := e).
Qed.

(** Adding the step keeps the order of two times in the range. *)
Lemma leb_add_step (a t z : float) :
  in_step_range a = true -> in_step_range t = true ->
  (a <=? t)%float = true -> (t + 0.01 <=? z)%float = true ->
  (a + 0.01 <=? z)%float = true.
Proof.
  intros Ha Ht. rewrite !leb_spec, !add_spec.
  destruct (in_step_range_inv a Ha) as [ma [ea [Ea [Hea Hma]]]].
  destruct (in_step_range_inv t Ht) as [mt [et [Et [Het Hmt]]]].
  rewrite Ea, Et.
  change (Prim2SF 0.01) with (S754_finite false step_mantissa (-59)).
  unfold SF64add. intros Hle Hz.
  destruct (SFadd_step_mono ma mt ea et Hea Hma Het Hmt Hle)
    as [m2 [e2 [m2' [e2' [E [E' Hle']]]]]].
  rewrite E. rewrite E' in Hz.
  now apply SFleb_trans_pos with (m2 := m2') (e2 := e2').
Qed.

(** A time below the limit that is at least a time of the range is in the
    range. *)
Lemma squeezed_in_step_range (a t : float) :
  in_step_range a = true -> (a <=? t)%float = true ->
  (t <? 1.5)%float = true -> in_step_range t = true.
Proof.
  unfold in_step_range. rewrite leb_spec, ltb_spec. intros Ha Hle Hlt.
  apply exponent_between_squeezed
    with (a := Prim2SF a) (l := Prim2SF 1.5); try assumption.
  reflexivity.
Qed.

Lemma leb_below_limit (a t : float) :
  in_step_range a = true -> (a <=? t)%float = true ->
  (t <? 1.5)%float = true -> (a <? 1.5)%float = true.
Proof.
  intros Ha. rewrite leb_spec, !ltb_spec.
  destruct (in_step_range_inv a Ha) as [ma [ea [Ea _]]]. rewrite Ea.
  change (Prim2SF 1.5) with (S754_finite false 6755399441055744 (-52)).
  apply SFleb_ltb_trans_pos.
Qed.

Lemma time_after_in_step_range (k : nat) :
  (1 <= k <= 150)%nat -> in_step_range (time_after k) = true.
Proof.
  intros Hk.
  assert (H : forallb (fun k => in_step_range (time_after k)) (seq 1 150) = true)
    by (vm_compute; reflexivity).
  rewrite forallb_forall in H. apply H, in_seq. lia.
Qed.

(** ** The sum of a time below the limit and the step *)

Lemma shr_m_iter_nonneg (p : positive) (mrs : shr_record) :
  (0 <= shr_m mrs)%Z -> (0 <= shr_m (iter_pos shr_1 p mrs))%Z.
Proof.
  revert mrs. induction p as [p IH|p IH|]; intros mrs H; cbn [iter_pos].
  - apply IH, IH. destruct mrs as [m r s]. cbn [shr_m] in H.
    rewrite shr_1_nonneg by assumption. cbn [shr_m].
    now apply Z.div2_nonneg.
  - now apply IH, IH.
  - destruct mrs as [m r s]. cbn [shr_m] in H.
    rewrite shr_1_nonneg by assumption. cbn [shr_m].
    now apply Z.div2_nonneg.
Qed.

Lemma shr_fexp_nonneg (m e : Z) :
  (0 <= m)%Z -> (0 <= shr_m (fst (shr_fexp prec emax m e loc_Exact)))%Z.
Proof.
  intros H. unfold shr_fexp, shr. cbn [shr_record_of_loc].
  destruct (fexp prec emax (Zdigits2 m + e) - e)%Z; cbn [fst shr_m];
    try assumption.
  now apply shr_m_iter_nonneg.
Qed.

Lemma round_nearest_even_nonneg (m : Z) (l : location) :
  (0 <= m)%Z -> (0 <= round_nearest_even m l)%Z.
Proof.
  intros H. destruct l as [|[]]; cbn [round_nearest_even];
    try destruct (Z.even m); lia.
Qed.

(** Rounding never yields NaN. *)
Lemma binary_round_not_nan (s : bool) (m : positive) (e : Z) :
  binary_round prec emax s m e <> S754_nan.
Proof.
  unfold binary_round.
  destruct (shl_align m e (fexp prec emax (Zpos (digits2_pos m) + e)))
    as [mz ez].
  unfold binary_round_aux.
  pose proof (shr_fexp_nonneg (Zpos mz) ez (Pos2Z.is_nonneg mz)) as H1.
  destruct (shr_fexp prec emax (Zpos mz) ez loc_Exact) as [mrs1 e1].
  cbn [fst] in H1.
  pose proof (shr_fexp_nonneg
                (round_nearest_even (shr_m mrs1) (loc_of_shr_record mrs1)) e1
                (round_nearest_even_nonneg _ _ H1)) as H2.
  destruct (shr_fexp prec emax
              (round_nearest_even (shr_m mrs1) (loc_of_shr_record mrs1)) e1
              loc_Exact) as [mrs2 e2].
  cbn [fst] in H2.
  destruct (shr_m mrs2) as [|p|p]; [discriminate| |lia].
  destruct (e2 <=? emax - prec)%Z; discriminate.
Qed.

Lemma SFadd_step_not_nan (x : spec_float) :
  x <> S754_nan ->
  SFadd prec emax x (S754_finite false step_mantissa (-59)) <> S754_nan.
Proof.
  intros Hx. destruct x as [s|s| |s m e]; cbn [SFadd];
    try discriminate; try contradiction.
  unfold binary_normalize.
  destruct (cond_Zopp s (Zpos (fst (shl_align m e (Z.min e (-59))))) +
            cond_Zopp false
              (Zpos (fst (shl_align step_mantissa (-59) (Z.min e (-59))))))%Z;
    [discriminate| |]; apply binary_round_not_nan.
Qed.

Lemma SFleb_refl (x : spec_float) : x <> S754_nan -> SFleb x x = true.
Proof.
  intros Hx. destruct x as [s|s| |s m e]; try contradiction.
  - reflexivity.
  - now destruct s.
  - unfold SFleb, SFcompare. rewrite Z.compare_refl, Pos.compare_cont_spec.
    rewrite Pos.compare_refl. now destruct s.
Qed.

(** The sum of the step and a time below the limit is a number, so that it
    compares as equal to itself. *)
Lemma step_sum_leb_refl (t : float) :
  (t <? 1.5)%float = true -> (t + 0.01 <=? t + 0.01)%float = true.
Proof.
  rewrite ltb_spec, leb_spec, add_spec. intros Hlt.
  apply SFleb_refl. unfold SF64add.
  change (Prim2SF 0.01) with (S754_finite false step_mantissa (-59)).
  apply SFadd_step_not_nan. intros Hn. rewrite Hn in Hlt. discriminate Hlt.
Qed.

(** ** Steps of at least 0.01 *)

Section AdvancingSteps.

Context (L : Chrono).

Hypothesis advances :
  forall s, guard s = true ->
    (GetChTime L s + 0.01 <=? GetChTime L (DoStepDynamics L 0.01 s))%float
    = true.

(** While the guard holds, the time after [n] iterations is at least the
    one reached by adding the step [n] times. *)
Lemma time_at_least (s : ChSystem L) (n : nat) :
  GetChTime L s = 0%float -> (n < 150)%nat ->
  (forall i, (i <= n)%nat -> guard (steps L i s) = true) ->
  (time_after (S n) <=? GetChTime L (steps L (S n) s))%float = true.
Proof.
  intros H0. induction n as [|n IH]; intros Hn Hg.
  - pose proof (advances s (Hg 0%nat (le_n 0))) as H. rewrite H0 in H.
    exact H.
  - assert (Hle : (time_after (S n) <=? GetChTime L (steps L (S n) s))%float
                  = true)
      by (apply IH; [lia|intros i Hi; apply Hg; lia]).
    assert (G : guard (steps L (S n) s) = true) by (apply Hg; lia).
    assert (Ha : in_step_range (time_after (S n)) = true)
      by (apply time_after_in_step_range; lia).
    change (time_after (S (S n))) with (time_after (S n) + 0.01)%float.
    change (steps L (S (S n)) s)
      with (DoStepDynamics L 0.01 (steps L (S n) s)).
    apply leb_add_step with (t := GetChTime L (steps L (S n) s));
      try assumption.
    + now apply squeezed_in_step_range with (a := time_after (S n)).
    + now apply advances.
Qed.

Lemma guard_fails_by_150 (s : ChSystem L) :
  GetChTime L s = 0%float ->
  (forall i, (i < 150)%nat -> guard (steps L i s) = true) ->
  guard (steps L 150 s) = false.
Proof.
  intros H0 Hg.
  assert (Hle : (time_after 150 <=? GetChTime L (steps L 150 s))%float = true)
    by (apply time_at_least; [assumption|lia|intros i Hi; apply Hg; lia]).
  destruct (guard (steps L 150 s)) eqn:G; [|reflexivity].
  unfold guard in G.
  apply leb_below_limit with (a := time_after 150) in G;
    [|apply time_after_in_step_range; lia|assumption].
  rewrite time_after_150_reaches_limit in G. discriminate G.
Qed.

Lemma iterations_at_most_150 (s : ChSystem L) (fuel : nat) :
  GetChTime L s = 0%float -> (iterations L fuel s <= 150)%nat.
Proof.
  intros H0.
  destruct (Nat.le_gt_cases (iterations L fuel s) 150) as [H|H]; [assumption|].
  assert (G : guard (steps L 150 s) = true)
    by (apply guard_before_iteration with (fuel := fuel); assumption).
  rewrite guard_fails_by_150 in G; [discriminate G|assumption|].
  intros i Hi. apply guard_before_iteration with (fuel := fuel). lia.
Qed.

Lemma loop_left_within_150 (st : state L) (fuel : nat) :
  sys_GetChTime L st = 0%float -> (150 <= fuel)%nat ->
  fst (simulation_loop L fuel st) = true.
Proof.
  unfold sys_GetChTime. intros H0 Hf.
  rewrite simulation_loop_unfold. cbn [fst].
  pose proof (iterations_at_most_150 (sys st) fuel H0) as Hle.
  destruct (iterations_stop L fuel (sys st)) as [Hn|Hn].
  - assert (Hfuel : fuel = 150%nat) by lia.
    rewrite Hn. subst fuel.
    rewrite guard_fails_by_150; [reflexivity|assumption|].
    intros i Hi. apply guard_before_iteration with (fuel := 150%nat).
    now rewrite Hn.
  - now rewrite Hn.
Qed.

End AdvancingSteps.

(** The library that adds the step to the time never steps by less. *)
Lemma stepping_chrono_advances (created : bool)
    (s : ChSystem (stepping_chrono created)) :
  guard s = true ->
  (GetChTime (stepping_chrono created) s + 0.01 <=?
   GetChTime (stepping_chrono created)
     (DoStepDynamics (stepping_chrono created) 0.01 s))%float = true.
Proof. exact (step_sum_leb_refl s). Qed.

(** ** Runs of [main] *)

Section Runs.

Context (L : Chrono).

Lemma simulate_eq (timer : ChRealtimeStepTimer) (step_size : float)
    (fuel : nat) (st : state L) :
  simulate L timer step_size fuel st =
  Run (calls st ++ Call_ExportScript ::
         flat_map iteration_calls (times L (iterations L fuel (sys st)) (sys st)))
      (if guard (steps L (iterations L fuel (sys st)) (sys st))
       then Looping else Returned 0).
Proof.
  unfold simulate. rewrite simulation_loop_unfold.
  unfold pov_exporter_ExportScript, emit. cbn [sys objects calls].
  rewrite <- app_assoc. cbn [app].
  now destruct (guard (steps L (iterations L fuel (sys st)) (sys st))).
Qed.

Lemma main_not_created (fuel : nat) (argc : Z) (argv : list string) :
  create_directory L (out_dir L) = false ->
  main L fuel argc argv =
  Run [Call_create_directory (out_dir L) false;
       Call_cout [Str "Error creating directory "; Str (out_dir L); Endl]]
      (Returned 1).
Proof. unfold main. now intros ->. Qed.

Lemma main_created (fuel : nat) (argc : Z) (argv : list string) :
  create_directory L (out_dir L) = true ->
  main L fuel argc argv =
  Run (calls (prepared L) ++ Call_ExportScript ::
         flat_map iteration_calls
           (times L (iterations L fuel (sys (prepared L))) (sys (prepared L))))
      (if guard (steps L (iterations L fuel (sys (prepared L))) (sys (prepared L)))
       then Looping else Returned 0).
Proof. unfold main. intros ->. cbn [negb]. apply simulate_eq. Qed.

(** The first call of a run that got past the directory check. *)
Lemma prepared_calls_head :
  exists cs,
    calls (prepared L) =
    Call_create_directory (out_dir L) (create_directory L (out_dir L)) :: cs.
Proof. eexists. reflexivity. Qed.

Lemma filter_iterations (p : call -> bool) (ts : list float) :
  (forall t, filter p (iteration_calls t) = []) ->
  filter p (flat_map iteration_calls ts) = [].
Proof.
  intros H. induction ts as [|t ts IH]; [reflexivity|].
  cbn [flat_map]. now rewrite filter_app, H, IH.
Qed.

Lemma printed_times_app (cs cs' : list call) :
  printed_times (cs ++ cs') = printed_times cs ++ printed_times cs'.
Proof.
  induction cs as [|c cs IH]; [reflexivity|].
  destruct c; cbn [app printed_times]; rewrite IH; try reflexivity.
  now rewrite app_assoc.
Qed.

Lemma printed_times_iterations (ts : list float) :
  printed_times (flat_map iteration_calls ts) = ts.
Proof.
  induction ts as [|t ts IH]; [reflexivity|].
  cbn [flat_map iteration_calls app printed_times doubles]. now rewrite IH.
Qed.

Lemma steps_requested_app (cs cs' : list call) :
  steps_requested (cs ++ cs') = steps_requested cs ++ steps_requested cs'.
Proof.
  induction cs as [|c cs IH]; [reflexivity|].
  destruct c; cbn [app steps_requested]; now rewrite IH.
Qed.

Lemma steps_requested_iterations (ts : list float) :
  Forall (fun step => step = 0.01%float)
    (steps_requested (flat_map iteration_calls ts)).
Proof.
  induction ts as [|t ts IH]; [constructor|].
  cbn [flat_map iteration_calls app steps_requested]. now constructor.
Qed.

(** If the guard fails after some number of steps within the room given,
    the loop ends with the guard failing. *)
Lemma guard_fails_at_end (fuel n : nat) (s : ChSystem L) :
  (n <= fuel)%nat -> guard (steps L n s) = false ->
  guard (steps L (iterations L fuel s) s) = false.
Proof.
  intros Hn G.
  destruct (iterations_stop L fuel s) as [Hi|Hi]; [|assumption].
  destruct (Nat.eq_dec n fuel) as [->|Hne]; [now rewrite Hi|].
  assert (G' : guard (steps L n s) = true)
    by (apply guard_before_iteration with (fuel := fuel); lia).
  congruence.
Qed.

End Runs.

(** ** The number of iterations *)

(** C1. If each [DoStepDynamics(0.01)] made while the guard holds
    advances the time read by [GetChTime] by exactly one step of 0.01 (a
    binary64 addition of the literal), the loop entered at simulated time 0
    executes exactly 150 iterations: given room for at least 150 it is left
    after 150, having appended 150 blocks of one step, one printed line and
    one [ExportData] each; given less, it is still running.  A run of
    [main] that created the directory and reaches the loop at time 0
    therefore makes exactly 150 [ExportData] calls in total and returns
    0. *)
Theorem loop_executes_150_iterations (L : Chrono) :
  (forall s, guard s = true ->
     GetChTime L (DoStepDynamics L 0.01 s) = (GetChTime L s + 0.01)%float) ->
  (forall st : state L,
     sys_GetChTime L st = 0%float ->
     (forall fuel, (150 <= fuel)%nat ->
        iterations L fuel (sys st) = 150%nat /\
        exists st',
          simulation_loop L fuel st = (true, st') /\
          calls st' =
            calls st ++ flat_map iteration_calls (map time_after (seq 1 150)) /\
          count is_ExportData (calls st') =
            (count is_ExportData (calls st) + 150)%nat) /\
     (forall fuel, (fuel < 150)%nat ->
        iterations L fuel (sys st) = fuel /\
        fst (simulation_loop L fuel st) = false)) /\
  (create_directory L (out_dir L) = true ->
   sys_GetChTime L (prepared L) = 0%float ->
   forall (fuel : nat) (argc : Z) (argv : list string),
     (150 <= fuel)%nat ->
     count is_ExportData (run_calls (main L fuel argc argv)) = 150%nat /\
     run_outcome (main L fuel argc argv) = Returned 0).
Proof.
  unfold sys_GetChTime. intros Hstep. split.
  - intros st H0. split; intros fuel Hf.
    + assert (Hn : iterations L fuel (sys st) = 150%nat).
      { rewrite iterations_exact_steps by assumption. now apply Nat.min_r. }
      split; [assumption|].
      rewrite simulation_loop_unfold, Hn.
      eexists. split; [|split].
      * f_equal. unfold guard. rewrite time_of_steps by (assumption || lia).
        now rewrite time_after_150_reaches_limit.
      * cbn [calls]. now rewrite times_exact by (assumption || lia).
      * cbn [calls].
        rewrite count_app, count_ExportData_iterations, times_length.
        reflexivity.
    + assert (Hn : iterations L fuel (sys st) = fuel).
      { rewrite iterations_exact_steps by assumption. apply Nat.min_l. lia. }
      split; [assumption|].
      rewrite simulation_loop_unfold, Hn. cbn [fst].
      unfold guard. rewrite time_of_steps by (assumption || lia).
      rewrite time_after_below_limit by assumption. reflexivity.
  - intros Hdir H0 fuel argc argv Hf.
    rewrite main_created by assumption. cbn [run_calls run_outcome].
    assert (Hn : iterations L fuel (sys (prepared L)) = 150%nat).
    { rewrite iterations_exact_steps by assumption. now apply Nat.min_r. }
    rewrite Hn. split.
    + isolate_ExportScript.
      rewrite !count_app, count_ExportData_iterations, times_length.
      reflexivity.
    + unfold guard. rewrite time_of_steps by (assumption || lia).
      now rewrite time_after_150_reaches_limit.
Qed.

(** The theorem at the library that adds the step to the time. *)
Lemma loop_executes_150_iterations_witness :
  iterations (stepping_chrono true) 150
    (sys (prepared (stepping_chrono true))) = 150%nat /\
  fst (simulation_loop (stepping_chrono true) 149
         (prepared (stepping_chrono true))) = false /\
  count is_ExportData
    (run_calls (main (stepping_chrono true) 150 1 ["my_example"])) = 150%nat /\
  run_outcome (main (stepping_chrono true) 150 1 ["my_example"]) = Returned 0.
Proof.
  assert (Hstep : forall s : ChSystem (stepping_chrono true),
            guard s = true ->
            GetChTime (stepping_chrono true)
              (DoStepDynamics (stepping_chrono true) 0.01 s) =
            (GetChTime (stepping_chrono true) s + 0.01)%float)
    by (intros s _; reflexivity).
  destruct (loop_executes_150_iterations (stepping_chrono true) Hstep)
    as [Hloop Hmain].
  destruct (Hloop (prepared (stepping_chrono true)) eq_refl) as [Hlong Hshort].
  split; [exact (proj1 (Hlong 150%nat (le_n 150)))|].
  split; [exact (proj2 (Hshort 149%nat (le_n 150)))|].
  exact (Hmain eq_refl eq_refl 150%nat 1%Z ["my_example"] (le_n 150)).
Defined.

(** ** Directory creation *)

(** C2. If [create_directory] fails on the output directory, [main]
    prints the error message that names the directory and returns 1; the
    run consists of these two calls only, so no body or link is made, no
    step is simulated, no time is printed and the exporter is never
    called. *)
Theorem failed_directory_ends_run (L : Chrono) (fuel : nat) (argc : Z)
    (argv : list string) :
  create_directory L (out_dir L) = false ->
  main L fuel argc argv =
  Run [Call_create_directory (out_dir L) false;
       Call_cout [Str "Error creating directory "; Str (out_dir L); Endl]]
      (Returned 1).
Proof. apply main_not_created. Qed.

Lemma failed_directory_ends_run_witness :
  main (stepping_chrono false) 150 1 ["my_example"] =
  Run [Call_create_directory "DEMO_OUTPUT/POVRAY_1" false;
       Call_cout [Str "Error creating directory "; Str "DEMO_OUTPUT/POVRAY_1";
                  Endl]]
      (Returned 1).
Proof.
  apply (failed_directory_ends_run (stepping_chrono false) 150 1 ["my_example"]).
  reflexivity.
Defined.

(** C3. In every run, whatever precedes an export call ([ExportScript] or
    [ExportData]) contains the call of [create_directory] on the output
    directory, and that call returned [true]. *)
Theorem directory_created_before_export (L : Chrono) (fuel : nat) (argc : Z)
    (argv : list string) (before after : list call) (c : call) :
  run_calls (main L fuel argc argv) = before ++ c :: after ->
  is_export c = true ->
  In (Call_create_directory (out_dir L) true) before.
Proof.
  intros Hrun Hc.
  destruct (create_directory L (out_dir L)) eqn:Hdir.
  - rewrite main_created in Hrun by assumption. cbn [run_calls] in Hrun.
    destruct (prepared_calls_head L) as [cs Hcs].
    rewrite Hcs, Hdir in Hrun. cbn [app] in Hrun.
    destruct before as [|b before].
    + injection Hrun as <- _. discriminate Hc.
    + injection Hrun as <- _. now left.
  - rewrite main_not_created in Hrun by assumption. cbn [run_calls] in Hrun.
    assert (Hin : In c (before ++ c :: after)) by (apply in_elt).
    rewrite <- Hrun in Hin.
    destruct Hin as [<-|[<-|[]]]; discriminate Hc.
Qed.

Lemma directory_created_before_export_witness :
  In (Call_create_directory "DEMO_OUTPUT/POVRAY_1" true)
     (calls (prepared (stepping_chrono true))).
Proof.
  apply (directory_created_before_export (stepping_chrono true) 1 1
           ["my_example"] (calls (prepared (stepping_chrono true)))
           (iteration_calls 0.01) Call_ExportScript);
    reflexivity.
Defined.

(** ** Command-line arguments *)

(** C7. [main] never reads [argc] or [argv]: with the same library, two
    runs on different arguments make the same calls (console output
    included) and end the same way. *)
Theorem arguments_are_ignored (L : Chrono) (fuel : nat) (argc argc' : Z)
    (argv argv' : list string) :
  main L fuel argc argv = main L fuel argc' argv'.
Proof.
  destruct (create_directory L (out_dir L)) eqn:Hdir.
  - now rewrite !main_created.
  - now rewrite !main_not_created.
Qed.

(** ** Exit status *)

(** C9. With library calls that all return, the exit status of [main] is
    1 when [create_directory] returns false and 0 otherwise: a failed
    creation returns 1; a successful one returns 0 as soon as the loop
    guard fails within the iterations allowed; and a status that is
    returned is the one that the result of [create_directory]
    determines. *)
Theorem exit_status_of_main (L : Chrono) (fuel : nat) (argc : Z)
    (argv : list string) :
  (create_directory L (out_dir L) = false ->
   run_outcome (main L fuel argc argv) = Returned 1) /\
  (create_directory L (out_dir L) = true ->
   forall n, (n <= fuel)%nat ->
     guard (steps L n (sys (prepared L))) = false ->
     run_outcome (main L fuel argc argv) = Returned 0) /\
  (forall status,
     run_outcome (main L fuel argc argv) = Returned status ->
     status = if create_directory L (out_dir L) then 0%Z else 1%Z).
Proof.
  split; [|split].
  - intros Hdir. now rewrite main_not_created.
  - intros Hdir n Hn G. rewrite main_created by assumption. cbn [run_outcome].
    now rewrite (guard_fails_at_end L fuel n).
  - intros status. destruct (create_directory L (out_dir L)) eqn:Hdir.
    + rewrite main_created by assumption. cbn [run_outcome].
      destruct (guard _); [discriminate|]. now intros [= <-].
    + rewrite main_not_created by assumption. cbn [run_outcome].
      now intros [= <-].
Qed.

Lemma exit_status_of_main_witness :
  run_outcome (main (stepping_chrono false) 150 1 ["my_example"]) = Returned 1 /\
  run_outcome (main (stepping_chrono true) 150 1 ["my_example"]) = Returned 0.
Proof.
  split.
  - apply (exit_status_of_main (stepping_chrono false) 150 1 ["my_example"]).
    reflexivity.
  - apply (proj1 (proj2
      (exit_status_of_main (stepping_chrono true) 150 1 ["my_example"])))
      with (n := 150%nat); [reflexivity|apply le_n|].
    vm_compute. reflexivity.
Defined.

(** ** The timer and [step_size] *)

Lemma step_literal_is_not_step_size : 0.01%float <> 5e-3%float.
Proof.
  intros H. apply (f_equal (fun x => (x <? 0.0075)%float)) in H.
  vm_compute in H. discriminate H.
Qed.

(** C10. The [ChRealtimeStepTimer] object and [step_size] (5e-3) are
    never used: whatever their values, [main] is the same run; no run
    calls [Spin]; and every [DoStepDynamics] call is given the literal
    0.01, which is not [step_size]. *)
Theorem timer_and_step_size_unused (L : Chrono) (fuel : nat) (argc : Z)
    (argv : list string) :
  (forall (realtime_timer : ChRealtimeStepTimer) (step_size : float),
     main L fuel argc argv =
     if negb (create_directory L (out_dir L)) then
       Run [Call_create_directory (out_dir L) (create_directory L (out_dir L));
            Call_cout [Str "Error creating directory "; Str (out_dir L); Endl]]
           (Returned 1)
     else simulate L realtime_timer step_size fuel (prepared L)) /\
  count is_Spin (run_calls (main L fuel argc argv)) = 0%nat /\
  Forall (fun step => step = 0.01%float /\ step <> 5e-3%float)
    (steps_requested (run_calls (main L fuel argc argv))).
Proof.
  split; [intros timer step_size; reflexivity|].
  destruct (create_directory L (out_dir L)) eqn:Hdir.
  - rewrite main_created by assumption. cbn [run_calls]. split.
    + isolate_ExportScript.
      rewrite !count_app. unfold count at 3.
      rewrite filter_iterations by reflexivity. reflexivity.
    + isolate_ExportScript.
      rewrite !steps_requested_app. cbn [steps_requested app].
      change (steps_requested (calls (prepared L))) with (@nil float).
      cbn [app].
      eapply Forall_impl; [|apply steps_requested_iterations].
      intros step ->. split; [reflexivity|apply step_literal_is_not_step_size].
  - rewrite main_not_created by assumption. cbn [run_calls]. split.
    + reflexivity.
    + constructor.
Qed.

(** ** Termination *)

(** C8. If each [DoStepDynamics(0.01)] made while the guard holds
    increases the time by at least 0.01, that is leaves a time that is not
    below the binary64 sum of the previous time and the literal, then the
    loop, entered at time 0, is left after at most 150 iterations; and
    [main], whose loop starts at time 0, returns a status whenever it is
    given room for 150 iterations. *)
Theorem main_terminates (L : Chrono) :
  (forall s, guard s = true ->
     (GetChTime L s + 0.01 <=? GetChTime L (DoStepDynamics L 0.01 s))%float
     = true) ->
  (forall (st : state L) (fuel : nat),
     sys_GetChTime L st = 0%float -> (150 <= fuel)%nat ->
     fst (simulation_loop L fuel st) = true /\
     (iterations L fuel (sys st) <= 150)%nat) /\
  (sys_GetChTime L (prepared L) = 0%float ->
   forall (fuel : nat) (argc : Z) (argv : list string),
     (150 <= fuel)%nat ->
     exists status, run_outcome (main L fuel argc argv) = Returned status).
Proof.
  intros Hadv. split.
  - intros st fuel H0 Hf. split.
    + now apply loop_left_within_150.
    + now apply iterations_at_most_150.
  - intros H0 fuel argc argv Hf.
    destruct (create_directory L (out_dir L)) eqn:Hdir.
    + exists 0%Z. rewrite main_created by assumption. cbn [run_outcome].
      pose proof (loop_left_within_150 L Hadv (prepared L) fuel H0 Hf) as Hleft.
      rewrite simulation_loop_unfold in Hleft. cbn [fst] in Hleft.
      apply negb_true_iff in Hleft. now rewrite Hleft.
    + exists 1%Z. now rewrite main_not_created.
Qed.

(** The theorem at the library that adds the step to the time. *)
Lemma main_terminates_witness :
  fst (simulation_loop (stepping_chrono true) 150
         (prepared (stepping_chrono true))) = true /\
  (iterations (stepping_chrono true) 150
     (sys (prepared (stepping_chrono true))) <= 150)%nat /\
  exists status,
    run_outcome (main (stepping_chrono true) 150 1 ["my_example"]) =
    Returned status.
Proof.
  destruct (main_terminates (stepping_chrono true)
              (stepping_chrono_advances true)) as [Hloop Hmain].
  split; [|split].
  - apply (Hloop (prepared (stepping_chrono true)) 150%nat);
      [reflexivity|apply le_n].
  - apply (Hloop (prepared (stepping_chrono true)) 150%nat);
      [reflexivity|apply le_n].
  - apply Hmain; [reflexivity|apply le_n].
Defined.

(** ** The items of the system *)

(** C5, as the code has it.  When the output directory is created, the
    calls of [sys.Add] in a run are exactly three, in this order: the floor
    box (10 x 2 x 10, density 3000, at (0, -2, 0), fixed), the pendulum box
    (0.5 x 2 x 0.5, density 3000, at (0, 3, 0), linear velocity (1, 0, 0),
    not fixed), and the [ChLinkMateGeneric] that constrains x, y and z but
    no rotation and is initialized on the pendulum and the floor with both
    frames at the absolute point (0, 4, 0); the system that enters the loop
    is the new system with these three added in that order. *)
Theorem three_items_added (L : Chrono) (fuel : nat) (argc : Z)
    (argv : list string) :
  create_directory L (out_dir L) = true ->
  let floor :=
    Body {| Xsize := 10; Ysize := 2; Zsize := 10; density := 3000;
            visualize := true; collide := false;
            pos := Vector3d 0 (-2) 0; lin_vel := Vector3d 0 0 0;
            fixed := true;
            visual_color := None; visual_texture := None |} in
  let pendulum :=
    Body {| Xsize := 0.5; Ysize := 2; Zsize := 0.5; density := 3000;
            visualize := true; collide := false;
            pos := Vector3d 0 3 0; lin_vel := Vector3d 1 0 0;
            fixed := false;
            visual_color := None; visual_texture := None |} in
  let joint :=
    Link {| c_x := true; c_y := true; c_z := true;
            c_rx := false; c_ry := false; c_rz := false;
            initialized :=
              Some (pendulumBody, floorBody, false,
                    Frame (Vector3d 0 4 0), Frame (Vector3d 0 4 0)) |} in
  filter is_Add (run_calls (main L fuel argc argv)) =
    [Call_Add floorBody floor; Call_Add pendulumBody pendulum;
     Call_Add sphericalLink joint] /\
  sys (prepared L) =
    Add L sphericalLink joint
      (Add L pendulumBody pendulum
         (Add L floorBody floor
            (SetCollisionSystemType L BULLET (ChSystemNSC L)))).
Proof.
  intros Hdir floor pendulum joint. split; [|reflexivity].
  rewrite main_created by assumption. cbn [run_calls].
  isolate_ExportScript.
  rewrite !filter_app, filter_iterations by reflexivity.
  reflexivity.
Qed.

Lemma three_items_added_witness :
  count is_Add (run_calls (main (stepping_chrono true) 150 1 ["my_example"])) =
  3%nat.
Proof.
  unfold count.
  rewrite (proj1 (three_items_added (stepping_chrono true) 150 1
                    ["my_example"] eq_refl)).
  reflexivity.
Defined.

(** C5 as stated fails when the directory cannot be created: that run adds
    nothing to the system. *)
Lemma failed_run_adds_no_item :
  count is_Add (run_calls (main (stepping_chrono false) 150 1 ["my_example"])) =
    0%nat /\
  count is_Add (run_calls (main (stepping_chrono false) 150 1 ["my_example"])) <>
    3%nat.
Proof. split; [reflexivity|discriminate]. Qed.

(** ** The export script *)

(** C6, as the code has it.  When the output directory is created,
    [ExportScript] is called exactly once in a run; the calls before it are
    those of the prepared state, which contain the [SetCamera] and the
    [AddAll] call and neither [ExportScript] nor [ExportData]; no
    [ExportScript] follows it. *)
Theorem export_script_once (L : Chrono) (fuel : nat) (argc : Z)
    (argv : list string) :
  create_directory L (out_dir L) = true ->
  count is_ExportScript (run_calls (main L fuel argc argv)) = 1%nat /\
  exists after,
    run_calls (main L fuel argc argv) =
      calls (prepared L) ++ Call_ExportScript :: after /\
    In (Call_SetCamera (Vector3d 0 3 (-10)) (Vector3d 0 1 0) 50)
       (calls (prepared L)) /\
    In Call_AddAll (calls (prepared L)) /\
    count is_ExportScript (calls (prepared L)) = 0%nat /\
    count is_ExportData (calls (prepared L)) = 0%nat /\
    count is_ExportScript after = 0%nat.
Proof.
  intros Hdir. rewrite main_created by assumption. cbn [run_calls].
  assert (Hafter : forall ts,
            count is_ExportScript (flat_map iteration_calls ts) = 0%nat).
  { intros ts. unfold count. now rewrite filter_iterations. }
  split.
  - isolate_ExportScript.
    rewrite !count_app, Hafter. reflexivity.
  - eexists. split; [reflexivity|].
    split; [cbv; tauto|]. split; [cbv; tauto|].
    split; [reflexivity|]. split; [reflexivity|]. apply Hafter.
Qed.

Lemma export_script_once_witness :
  count is_ExportScript
    (run_calls (main (stepping_chrono true) 150 1 ["my_example"])) = 1%nat.
Proof.
  apply (export_script_once (stepping_chrono true) 150 1 ["my_example"]).
  reflexivity.
Defined.

(** C6 as stated fails when the directory cannot be created: that run
    never calls [ExportScript]. *)
Lemma failed_run_exports_no_script :
  count is_ExportScript
    (run_calls (main (stepping_chrono false) 150 1 ["my_example"])) = 0%nat /\
  count is_ExportScript
    (run_calls (main (stepping_chrono false) 150 1 ["my_example"])) <> 1%nat.
Proof. split; [reflexivity|discriminate]. Qed.

(** ** Printed times *)

Lemma printed_times_of_main (L : Chrono) (fuel : nat) (argc : Z)
    (argv : list string) :
  printed_times (run_calls (main L fuel argc argv)) =
  if create_directory L (out_dir L)
  then times L (iterations L fuel (sys (prepared L))) (sys (prepared L))
  else [].
Proof.
  destruct (create_directory L (out_dir L)) eqn:Hdir.
  - rewrite main_created by assumption. cbn [run_calls].
    rewrite printed_times_app. cbn [printed_times].
    now rewrite printed_times_iterations.
  - now rewrite main_not_created.
Qed.

Lemma Q_eqb_eq (p q : Q) : Q_eqb p q = true -> p = q.
Proof.
  destruct p as [n d], q as [n' d']. unfold Q_eqb. cbn [Qnum Qden].
  intros H. apply andb_prop in H. destruct H as [Hn Hd].
  apply Z.eqb_eq in Hn. apply Pos.eqb_eq in Hd. now subst.
Qed.

(** The time reached by adding the step [k] times is written as the
    numeral of [k/100]. *)
Lemma shown_time_after (k : nat) :
  (1 <= k <= 150)%nat -> shown (time_after k) = Some (hundredths k).
Proof.
  intros Hk.
  assert (H : forallb (fun k => shown_as (time_after k) (hundredths k))
                (seq 1 150) = true) by (vm_compute; reflexivity).
  rewrite forallb_forall in H.
  assert (Hs : shown_as (time_after k) (hundredths k) = true)
    by (apply H, in_seq; lia).
  unfold shown_as in Hs. destruct (shown (time_after k)) as [p|];
    [|discriminate Hs].
  now rewrite (Q_eqb_eq _ _ Hs).
Qed.

Lemma hundredths_mono (k k' : nat) :
  (k <= k')%nat -> (hundredths k <= hundredths k')%Q.
Proof.
  intros H. unfold hundredths. rewrite !Qred_correct.
  unfold Qle. cbn [Qnum Qden]. lia.
Qed.

Lemma hundredths_bound (k : nat) :
  (k <= 150)%nat -> (hundredths k <= 3 # 2)%Q.
Proof.
  intros H. unfold hundredths. rewrite Qred_correct.
  unfold Qle. cbn [Qnum Qden]. lia.
Qed.

(** The time read in the 150th iteration is above the limit and is written
    as 1.5. *)
Example last_time_shown_as_limit :
  (1.5 <? time_after 150)%float = true /\
  shown (time_after 150) = Some (3 # 2)%Q.
Proof. split; vm_compute; reflexivity. Qed.

(** C4. In a run that got past the directory check each iteration
    contributes one step, one line and one [ExportData], and the number
    inserted into [cout] for the line is the time read after that
    iteration's step.  When the loop is entered at time 0 and each step
    made while the guard holds adds the literal 0.01 to the time, line
    [i + 1] shows the numeral of [(i + 1) / 100]; there are at most 150
    lines, each shown value is at most the next one, and each is at most
    3/2. *)
Theorem printed_values_of_run (L : Chrono) (fuel : nat) (argc : Z)
    (argv : list string) :
  let ts := printed_times (run_calls (main L fuel argc argv)) in
  (create_directory L (out_dir L) = true ->
   run_calls (main L fuel argc argv) =
     calls (prepared L) ++ Call_ExportScript :: flat_map iteration_calls ts) /\
  (forall i, (i < List.length ts)%nat ->
     nth i ts 0%float = GetChTime L (steps L (S i) (sys (prepared L)))) /\
  (sys_GetChTime L (prepared L) = 0%float ->
   (forall s, guard s = true ->
      GetChTime L (DoStepDynamics L 0.01 s) = (GetChTime L s + 0.01)%float) ->
   (List.length ts <= 150)%nat /\
   (forall i, (i < List.length ts)%nat ->
      shown (nth i ts 0%float) = Some (hundredths (S i))) /\
   (forall i, (S i < List.length ts)%nat ->
      exists q q',
        shown (nth i ts 0%float) = Some q /\
        shown (nth (S i) ts 0%float) = Some q' /\ (q <= q')%Q) /\
   (forall i, (i < List.length ts)%nat ->
      exists q, shown (nth i ts 0%float) = Some q /\ (q <= 3 # 2)%Q)).
Proof.
  intros ts. subst ts. rewrite printed_times_of_main.
  destruct (create_directory L (out_dir L)) eqn:Hdir.
  - set (s := sys (prepared L)). set (n := iterations L fuel s).
    rewrite times_length.
    split; [intros _; now rewrite main_created|].
    split; [intros i Hi; now apply times_nth|].
    unfold sys_GetChTime. fold s. intros H0 Hstep.
    assert (Hn : (n <= 150)%nat).
    { unfold n. rewrite (iterations_exact_steps L Hstep s fuel H0).
      apply Nat.le_min_r. }
    assert (Hshown : forall i, (i < n)%nat ->
              shown (nth i (times L n s) 0%float) = Some (hundredths (S i))).
    { intros i Hi. rewrite times_nth by assumption.
      rewrite (time_of_steps L Hstep s (S i) H0) by lia.
      apply shown_time_after. lia. }
    split; [assumption|]. split; [assumption|]. split.
    + intros i Hi. exists (hundredths (S i)), (hundredths (S (S i))).
      split; [apply Hshown; lia|]. split; [now apply Hshown|].
      apply hundredths_mono. lia.
    + intros i Hi. exists (hundredths (S i)).
      split; [now apply Hshown|]. apply hundredths_bound. lia.
  - cbn [List.length].
    split; [intros H; discriminate H|].
    split; [intros i Hi; lia|]. intros _ _.
    split; [lia|]. split; [intros i Hi; lia|].
    split; intros i Hi; lia.
Qed.

(** The theorem at the library that adds the step to the time: the first
    line shows 0.01, the last two show 1.49 and 1.5. *)
Lemma printed_values_of_run_witness :
  let ts :=
    printed_times (run_calls (main (stepping_chrono true) 150 1 ["my_example"]))
  in
  List.length ts = 150%nat /\
  shown (nth 0 ts 0%float) = Some (1 # 100)%Q /\
  shown (nth 148 ts 0%float) = Some (149 # 100)%Q /\
  shown (nth 149 ts 0%float) = Some (3 # 2)%Q /\
  exists q q',
    shown (nth 148 ts 0%float) = Some q /\
    shown (nth 149 ts 0%float) = Some q' /\ (q <= q')%Q.
Proof.
  pose proof (printed_values_of_run (stepping_chrono true) 150 1
                ["my_example"]) as H.
  cbv zeta in *. destruct H as [_ [_ H]].
  destruct (H eq_refl (fun s _ => eq_refl)) as [_ [Hshown [Hmono _]]].
  assert (Hlen : List.length
            (printed_times
               (run_calls (main (stepping_chrono true) 150 1 ["my_example"])))
          = 150%nat) by (vm_compute; reflexivity).
  split; [exact Hlen|].
  split; [apply (Hshown 0%nat); rewrite Hlen; lia|].
  split; [apply (Hshown 148%nat); rewrite Hlen; lia|].
  split; [apply (Hshown 149%nat); rewrite Hlen; lia|].
  apply (Hmono 148%nat). rewrite Hlen. lia.
Defined.

(** * Further properties of [main] *)

(** ** Runs that are still in the loop *)

(** X3. A run that created the directory is still in the loop when the
    iterations run out exactly when the guard holds on entry and after
    each of the iterations allowed. *)
Theorem looping_iff_guard_holds (L : Chrono) (fuel : nat) (argc : Z)
    (argv : list string) :
  create_directory L (out_dir L) = true ->
  (run_outcome (main L fuel argc argv) = Looping <->
   forall i, (i <= fuel)%nat -> guard (steps L i (sys (prepared L))) = true).
Proof.
  intros Hdir. rewrite main_created by assumption. cbn [run_outcome].
  set (s := sys (prepared L)). split.
  - intros Hloop i Hi.
    destruct (guard (steps L (iterations L fuel s) s)) eqn:G;
      [|discriminate Hloop].
    destruct (iterations_stop L fuel s) as [Hn|Hn]; [|congruence].
    destruct (Nat.eq_dec i fuel) as [->|Hne]; [now rewrite <- Hn at 1|].
    apply guard_before_iteration with (fuel := fuel). lia.
  - intros Hg.
    rewrite (iterations_short L fuel fuel s);
      [now rewrite Hg|intros; apply Hg; lia|lia].
Qed.

Lemma looping_iff_guard_holds_witness :
  run_outcome (main (stepping_chrono true) 149 1 ["my_example"]) = Looping.
Proof.
  apply (looping_iff_guard_holds (stepping_chrono true) 149 1 ["my_example"]
           eq_refl).
  intros i Hi. unfold guard.
  rewrite (time_of_steps (stepping_chrono true) (fun s _ => eq_refl))
    by (reflexivity || lia).
  apply time_after_below_limit. lia.
Defined.

(** ** Entering and leaving the loop *)

Lemma guard_kept_by_steps (L : Chrono) (s : ChSystem L) :
  (forall s', guard s' = true -> guard (DoStepDynamics L 0.01 s') = true) ->
  guard s = true -> forall n, guard (steps L n s) = true.
Proof.
  intros Hkeep G n. induction n as [|n IH]; [assumption|].
  cbn [steps]. now apply Hkeep.
Qed.

(** X4. The loop has no bound of its own: if the time stays below 1.5
    across every step (a clock that stands still, or steps that shrink),
    a run that enters the loop never returns, and takes as many steps and
    exports as many frames as it is allowed iterations. *)
Theorem loop_never_left_below_limit (L : Chrono) (fuel : nat) (argc : Z)
    (argv : list string) :
  create_directory L (out_dir L) = true ->
  guard (sys (prepared L)) = true ->
  (forall s, guard s = true -> guard (DoStepDynamics L 0.01 s) = true) ->
  run_outcome (main L fuel argc argv) = Looping /\
  count is_DoStepDynamics (run_calls (main L fuel argc argv)) = fuel /\
  count is_ExportData (run_calls (main L fuel argc argv)) = fuel.
Proof.
  intros Hdir G Hkeep.
  pose proof (guard_kept_by_steps L (sys (prepared L)) Hkeep G) as Hg.
  rewrite main_created by assumption. cbn [run_calls run_outcome].
  rewrite (iterations_short L fuel fuel (sys (prepared L)));
    [|intros; apply Hg|lia].
  rewrite Hg. split; [reflexivity|].
  isolate_ExportScript. rewrite !count_app.
  rewrite count_ExportData_iterations, times_length. split; [|reflexivity].
  change (count is_DoStepDynamics (calls (prepared L))) with 0%nat.
  cbn [count filter is_DoStepDynamics List.length Nat.add].
  generalize (times L fuel (sys (prepared L))) (times_length L fuel (sys (prepared L))).
  intros ts <-. unfold count.
  induction ts as [|t ts IH]; [reflexivity|].
  cbn [flat_map iteration_calls app filter is_DoStepDynamics List.length].
  now rewrite IH.
Qed.

Lemma loop_never_left_below_limit_witness :
  run_outcome (main frozen_chrono 1000 1 ["my_example"]) = Looping /\
  count is_DoStepDynamics
    (run_calls (main frozen_chrono 1000 1 ["my_example"])) = 1000%nat /\
  count is_ExportData
    (run_calls (main frozen_chrono 1000 1 ["my_example"])) = 1000%nat.
Proof.
  apply (loop_never_left_below_limit frozen_chrono 1000 1 ["my_example"]).
  - reflexivity.
  - reflexivity.
  - intros s _. reflexivity.
Defined.

(** X5. If the time read on entry is not below 1.5 (a time of 1.5 or more,
    an infinity, or a NaN, on which every comparison fails), the loop body
    is never executed: after the set-up, the run is the [ExportScript]
    call alone, and [main] returns 0 however few iterations it is
    allowed. *)
Theorem loop_skipped_at_limit (L : Chrono) (fuel : nat) (argc : Z)
    (argv : list string) :
  create_directory L (out_dir L) = true ->
  guard (sys (prepared L)) = false ->
  main L fuel argc argv =
  Run (calls (prepared L) ++ [Call_ExportScript]) (Returned 0).
Proof.
  intros Hdir G. rewrite main_created by assumption.
  assert (Hn : iterations L fuel (sys (prepared L)) = 0%nat).
  { destruct fuel; cbn [iterations]; now rewrite G. }
  rewrite Hn. cbn [steps times seq map flat_map]. now rewrite G.
Qed.

Lemma loop_skipped_at_limit_witness :
  run_outcome (main (started_chrono nan) 0 1 ["my_example"]) = Returned 0 /\
  count is_DoStepDynamics
    (run_calls (main (started_chrono 1.5) 7 1 ["my_example"])) = 0%nat.
Proof.
  split.
  - rewrite (loop_skipped_at_limit (started_chrono nan) 0 1 ["my_example"]
               eq_refl eq_refl).
    reflexivity.
  - rewrite (loop_skipped_at_limit (started_chrono 1.5) 7 1 ["my_example"]
               eq_refl eq_refl).
    reflexivity.
Defined.

(** X6. Whatever the library, the loop is left at the first time that is
    not below 1.5: if the guard holds on entry and after each of the first
    [n - 1] steps and fails after the [n]-th, a run allowed at least [n]
    iterations takes exactly [n] steps, prints the [n] times read after
    them, exports [n] frames and returns 0. *)
Theorem loop_left_at_first_failure (L : Chrono) (n fuel : nat) (argc : Z)
    (argv : list string) :
  create_directory L (out_dir L) = true ->
  (forall i, (i < n)%nat -> guard (steps L i (sys (prepared L))) = true) ->
  guard (steps L n (sys (prepared L))) = false ->
  (n <= fuel)%nat ->
  main L fuel argc argv =
    Run (calls (prepared L) ++ Call_ExportScript ::
           flat_map iteration_calls (times L n (sys (prepared L))))
        (Returned 0) /\
  printed_times (run_calls (main L fuel argc argv)) =
    times L n (sys (prepared L)) /\
  count is_ExportData (run_calls (main L fuel argc argv)) = n.
Proof.
  intros Hdir Hg Hn Hf.
  pose proof (iterations_exact L n fuel (sys (prepared L)) Hg Hn Hf) as Hit.
  split; [|split].
  - rewrite main_created by assumption. now rewrite Hit, Hn.
  - rewrite printed_times_of_main, Hdir. now rewrite Hit.
  - rewrite main_created by assumption. cbn [run_calls]. rewrite Hit.
    isolate_ExportScript.
    now rewrite !count_app, count_ExportData_iterations, times_length.
Qed.

Lemma loop_left_at_first_failure_witness :
  printed_times (run_calls (main fine_chrono 200 1 ["my_example"])) =
    times fine_chrono 192 (sys (prepared fine_chrono)) /\
  count is_ExportData (run_calls (main fine_chrono 200 1 ["my_example"])) =
    192%nat.
Proof.
  apply (loop_left_at_first_failure fine_chrono 192 200 1 ["my_example"]).
  - reflexivity.
  - intros i Hi.
    assert (H : forallb (fun i => guard (steps fine_chrono i
                                    (sys (prepared fine_chrono))))
                  (seq 0 192) = true) by (vm_compute; reflexivity).
    rewrite forallb_forall in H. apply H, in_seq. lia.
  - vm_compute. reflexivity.
  - apply Nat.leb_le. reflexivity.
Defined.

(** ** What the calls of a run are *)

(** A call of a run that created the directory belongs to the set-up, is
    the [ExportScript] call, or belongs to an iteration. *)
Lemma in_run_calls (L : Chrono) (fuel : nat) (argc : Z) (argv : list string)
    (c : call) :
  create_directory L (out_dir L) = true ->
  In c (run_calls (main L fuel argc argv)) ->
  In c (calls (prepared L)) \/ c = Call_ExportScript \/
  exists t, In c (iteration_calls t).
Proof.
  intros Hdir. rewrite main_created by assumption. cbn [run_calls].
  intros H. apply in_app_or in H. destruct H as [H|[H|H]]; auto.
  apply in_flat_map in H. destruct H as [t [_ H]]. eauto.
Qed.

Lemma count_DoStepDynamics_iterations (ts : list float) :
  count is_DoStepDynamics (flat_map iteration_calls ts) = List.length ts.
Proof.
  induction ts as [|t ts IH]; [reflexivity|].
  cbn [flat_map]. rewrite count_app, IH. reflexivity.
Qed.

(** X7. In every run, the steps taken, the times printed and the frames
    exported are equally many: no step goes unreported and no frame is
    exported without a step. *)
Theorem steps_lines_and_frames_agree (L : Chrono) (fuel : nat) (argc : Z)
    (argv : list string) :
  count is_DoStepDynamics (run_calls (main L fuel argc argv)) =
    count is_ExportData (run_calls (main L fuel argc argv)) /\
  List.length (printed_times (run_calls (main L fuel argc argv))) =
    count is_ExportData (run_calls (main L fuel argc argv)).
Proof.
  rewrite printed_times_of_main.
  destruct (create_directory L (out_dir L)) eqn:Hdir.
  - rewrite main_created by assumption. cbn [run_calls].
    isolate_ExportScript. rewrite !count_app.
    rewrite count_DoStepDynamics_iterations, count_ExportData_iterations.
    rewrite times_length. split; reflexivity.
  - rewrite main_not_created by assumption. split; reflexivity.
Qed.

(** X8. The exporter is pointed at the directory that was created: the
    path given to [SetBasePath] in a run is the output directory, and the
    first call of that run is the successful [create_directory] on that
    same path. *)
Theorem exporter_writes_into_created_directory (L : Chrono) (fuel : nat)
    (argc : Z) (argv : list string) (dir : string) :
  In (Call_SetBasePath dir) (run_calls (main L fuel argc argv)) ->
  dir = out_dir L /\
  hd_error (run_calls (main L fuel argc argv)) =
    Some (Call_create_directory dir true).
Proof.
  destruct (create_directory L (out_dir L)) eqn:Hdir.
  - intros H.
    assert (Hd : dir = out_dir L).
    { apply in_run_calls in H; [|assumption].
      destruct H as [H|[H|[t H]]].
      - assert (Hall : forallb
                  (fun c => match c with
                            | Call_SetBasePath d => String.eqb d (out_dir L)
                            | _ => true
                            end) (calls (prepared L)) = true).
        { cbn. now rewrite String.eqb_refl. }
        rewrite forallb_forall in Hall. apply Hall in H.
        now apply String.eqb_eq.
      - discriminate H.
      - destruct H as [H|[H|[H|[]]]]; discriminate H. }
    split; [assumption|]. subst dir.
    rewrite main_created by assumption. cbn [run_calls].
    destruct (prepared_calls_head L) as [cs Hcs]. now rewrite Hcs, Hdir.
  - rewrite main_not_created by assumption. cbn [run_calls].
    intros [H|[H|[]]]; discriminate H.
Qed.

Lemma exporter_writes_into_created_directory_witness :
  hd_error (run_calls (main (stepping_chrono true) 5 1 ["my_example"])) =
    Some (Call_create_directory "DEMO_OUTPUT/POVRAY_1" true).
Proof.
  apply (exporter_writes_into_created_directory (stepping_chrono true) 5 1
           ["my_example"] "DEMO_OUTPUT/POVRAY_1").
  cbv. tauto.
Defined.

(** X9. The console shows the error line only when the directory could
    not be created, and then nothing else; in a run that created the
    directory every line written is a time line of the form
    [time= t]. *)
Theorem console_lines (L : Chrono) (fuel : nat) (argc : Z)
    (argv : list string) (items : list cout_item) :
  In (Call_cout items) (run_calls (main L fuel argc argv)) ->
  (create_directory L (out_dir L) = false /\
   items = [Str "Error creating directory "; Str (out_dir L); Endl]) \/
  (create_directory L (out_dir L) = true /\
   exists t, items = [Str "time= "; Dbl t; Endl]).
Proof.
  destruct (create_directory L (out_dir L)) eqn:Hdir; intros H.
  - right. split; [reflexivity|].
    apply in_run_calls in H; [|assumption].
    destruct H as [H|[H|[t H]]].
    + assert (Hall : forallb
                (fun c => match c with Call_cout _ => false | _ => true end)
                (calls (prepared L)) = true) by reflexivity.
      rewrite forallb_forall in Hall. apply Hall in H. discriminate H.
    + discriminate H.
    + destruct H as [H|[H|[H|[]]]]; try discriminate H.
      injection H as <-. now exists t.
  - left. split; [reflexivity|].
    rewrite main_not_created in H by assumption. cbn [run_calls] in H.
    destruct H as [H|[H|[]]]; [discriminate H|now injection H as <-].
Qed.

Lemma console_lines_witness :
  exists t,
    [Str "time= "; Dbl 0.01; Endl] = [Str "time= "; Dbl t; Endl].
Proof.
  destruct (console_lines (stepping_chrono true) 1 1 ["my_example"]
              [Str "time= "; Dbl 0.01; Endl]) as [[Hf _]|[_ H]].
  - cbv. tauto.
  - discriminate Hf.
  - exact H.
Defined.

(** ** Registration with the exporter *)

(** An element that occurs once in a list splits it in one way only. *)
Lemma split_at_single {A : Type} (x : A) (l1 l2 before after : list A) :
  ~ In x l1 -> ~ In x l2 ->
  l1 ++ x :: l2 = before ++ x :: after ->
  before = l1 /\ after = l2.
Proof.
  revert before. induction l1 as [|a l1 IH]; intros before H1 H2 E.
  - destruct before as [|b before]; cbn [app] in E.
    + injection E as <-. now split.
    + injection E as <- ->. exfalso. apply H2, in_elt.
  - destruct before as [|b before]; cbn [app] in E.
    + injection E as -> _. exfalso. apply H1. now left.
    + injection E as <- E. destruct (IH before) as [-> ->]; auto.
      intros H. apply H1. now right.
Qed.

(** X10. When [AddAll] registers the items of the system with the
    exporter, the three items have been added and the colour and the
    texture have been set; nothing is added to the system afterwards. *)
Theorem items_added_before_AddAll (L : Chrono) (fuel : nat) (argc : Z)
    (argv : list string) (before after : list call) :
  run_calls (main L fuel argc argv) = before ++ Call_AddAll :: after ->
  count is_Add before = 3%nat /\
  count is_Add after = 0%nat /\
  (exists c, In (Call_SetColor pendulumBody c) before) /\
  (exists file sx sy, In (Call_SetTexture floorBody file sx sy) before).
Proof.
  destruct (create_directory L (out_dir L)) eqn:Hdir.
  - rewrite main_created by assumption. cbn [run_calls].
    set (ts := times L _ _). intros E.
    assert (Hp : calls (prepared L) =
                 firstn 28 (calls (prepared L)) ++
                 Call_AddAll :: [Call_ChRealtimeStepTimer]) by reflexivity.
    rewrite Hp, <- app_assoc in E. cbn [app] in E.
    apply split_at_single in E.
    + destruct E as [-> ->]. split; [reflexivity|]. split.
      * change (Call_ChRealtimeStepTimer :: Call_ExportScript :: ?l)
          with ([Call_ChRealtimeStepTimer; Call_ExportScript] ++ l).
        rewrite count_app. unfold count at 2.
        now rewrite filter_iterations.
      * split; [eexists|do 3 eexists]; cbv; tauto.
    + intros H.
      assert (Hall : forallb (fun c => negb (is_AddAll c))
                       (firstn 28 (calls (prepared L))) = true) by reflexivity.
      rewrite forallb_forall in Hall. apply Hall in H. discriminate H.
    + intros [H|[H|H]]; try discriminate H.
      apply in_flat_map in H. destruct H as [t [_ [H|[H|[H|[]]]]]];
        discriminate H.
  - rewrite main_not_created by assumption. cbn [run_calls]. intros E.
    assert (Hin : In Call_AddAll (before ++ Call_AddAll :: after))
      by apply in_elt.
    rewrite <- E in Hin. destruct Hin as [H|[H|[]]]; discriminate H.
Qed.

Lemma items_added_before_AddAll_witness :
  count is_Add (firstn 28 (calls (prepared (stepping_chrono true)))) = 3%nat.
Proof.
  apply (items_added_before_AddAll (stepping_chrono true) 1 1 ["my_example"]
           (firstn 28 (calls (prepared (stepping_chrono true))))
           (Call_ChRealtimeStepTimer :: Call_ExportScript ::
              iteration_calls 0.01)).
  reflexivity.
Defined.

(** X11. The [ChCamera] object is set up and then left alone: in every
    run, the only calls that involve it are its creation and its four
    setters.  It is never added to the system and never named in a link;
    the exporter's camera comes from [SetCamera], which takes no object. *)
Theorem camera_object_unused (L : Chrono) (fuel : nat) (argc : Z)
    (argv : list string) (c : call) :
  In c (run_calls (main L fuel argc argv)) ->
  In camera (handles_of c) ->
  is_camera_setup c = true.
Proof.
  intros Hc Hh.
  assert (Hb : existsb (handle_eqb camera) (handles_of c) = true).
  { apply existsb_exists. exists camera. now split. }
  clear Hh. destruct (create_directory L (out_dir L)) eqn:Hdir.
  - apply in_run_calls in Hc; [|assumption].
    destruct Hc as [H|[->|[t H]]].
    + assert (Hall : forallb
                (fun c => implb (existsb (handle_eqb camera) (handles_of c))
                            (is_camera_setup c))
                (calls (prepared L)) = true) by reflexivity.
      rewrite forallb_forall in Hall. apply Hall in H.
      now rewrite Hb in H.
    + discriminate Hb.
    + destruct H as [<-|[<-|[<-|[]]]]; discriminate Hb.
  - rewrite main_not_created in Hc by assumption. cbn [run_calls] in Hc.
    destruct Hc as [<-|[<-|[]]]; discriminate Hb.
Qed.

Lemma camera_object_unused_witness :
  is_camera_setup (Call_SetAngle camera 50) = true.
Proof.
  apply (camera_object_unused (stepping_chrono true) 1 1 ["my_example"]).
  - cbv. tauto.
  - now left.
Defined.

(** ** The guard and exact arithmetic *)

Lemma SF_below_limit_conv (x : spec_float) (q : Q) :
  valid_binary x = true ->
  SF2Q x = Some q -> (q < 3 # 2)%Q ->
  SFltb x (S754_finite false 6755399441055744 (-52)) = true.
Proof.
  intros Hv Hq Hlt. destruct x as [s|s| |s m e]; cbn [SF2Q] in Hq;
    try discriminate; injection Hq as <-.
  - reflexivity.
  - unfold SFltb, SFcompare. destruct s; [reflexivity|].
    destruct (Z.compare_spec e (-52)) as [He|He|He]; [|reflexivity|].
    + subst e. rewrite Pos.compare_cont_spec. cbn [Pos.switch_Eq].
      unfold pow2, Qlt in Hlt. cbn [Qnum Qden Qmult inject_Z] in Hlt.
      change (Z.pos (1 * 2 ^ 52)) with 4503599627370496%Z in Hlt.
      destruct (Pos.compare_spec m 6755399441055744%positive) as [Hm|Hm|Hm];
        [exfalso|reflexivity|exfalso].
      * rewrite Hm in Hlt. lia.
      * apply Pos2Z.pos_lt_pos in Hm. lia.
    + exfalso. apply valid_normal_mantissa in Hv; [|lia].
      unfold Qlt in Hlt. destruct e as [|p|p];
        cbn [pow2 Qnum Qden Qmult inject_Z] in Hlt.
      * lia.
      * assert (1 <= Z.pow_pos 2 p)%Z by lia. nia.
      * rewrite Pos.mul_1_l, Pos2Z.inj_pow in Hlt.
        assert (2 ^ Zpos p <= 2 ^ 51)%Z by (apply Z.pow_le_mono_r; lia).
        lia.
Qed.

(** On a finite time the guard compares the number denoted with 3/2. *)
Lemma guard_value_iff (L : Chrono) (s : ChSystem L) (q : Q) :
  value (GetChTime L s) = Some q ->
  (guard s = true <-> (q < 3 # 2)%Q).
Proof.
  intros Hq. unfold guard. split.
  - intros G. now apply below_limit_value with (t := GetChTime L s).
  - intros Hlt. rewrite ltb_spec.
    apply SF_below_limit_conv with (q := q); try assumption.
    apply Prim2SF_valid.
Qed.

(** X12. The guard is exact: on a finite time it holds exactly when the
    number that the [double] denotes is below 3/2, so no rounding is
    involved in deciding whether another step is taken; among the times
    that denote no number it holds for minus infinity only, not for plus
    infinity and not for a NaN. *)
Theorem guard_is_exact (L : Chrono) (s : ChSystem L) :
  guard s = true <->
  match value (GetChTime L s) with
  | Some q => (q < 3 # 2)%Q
  | None => Prim2SF (GetChTime L s) = S754_infinity true
  end.
Proof.
  destruct (value (GetChTime L s)) as [q|] eqn:Hq.
  - now apply guard_value_iff.
  - unfold guard. rewrite ltb_spec. unfold value in Hq.
    destruct (Prim2SF (GetChTime L s)) as [b|b| |b m e];
      cbn [SF2Q] in Hq; try discriminate Hq.
    + destruct b; cbn; split; intros H; try reflexivity; discriminate H.
    + cbn. split; intros H; discriminate H.
Qed.

(** ** Steps of at most 0.01 *)

Section SmallSteps.

Context (L : Chrono).

Hypothesis small_steps :
  forall s, guard s = true ->
    increases_by_at_most (1 # 100) (GetChTime L s)
      (GetChTime L (DoStepDynamics L 0.01 s)).

(** After [n] of the first 150 steps the time denotes at most [n/100]. *)
Lemma value_after_small_steps (s : ChSystem L) (n : nat) :
  GetChTime L s = 0%float -> (n <= 150)%nat ->
  exists q, value (GetChTime L (steps L n s)) = Some q /\
            (q <= inject_Z (Z.of_nat n) * (1 # 100))%Q.
Proof.
  intros H0. induction n as [|n IH]; intros Hn.
  - exists 0%Q. cbn [steps]. rewrite H0. split; [reflexivity|].
    vm_compute. discriminate.
  - destruct IH as [q [Hq Hle]]; [lia|].
    assert (Hx : (inject_Z (Z.of_nat n) <= inject_Z 149)%Q)
      by (rewrite <- Zle_Qle; lia).
    assert (G : guard (steps L n s) = true).
    { apply (guard_value_iff L (steps L n s) q Hq).
      change (inject_Z 149) with (149 # 1)%Q in Hx.
      generalize dependent (inject_Z (Z.of_nat n)). intros x Hle Hx. lra. }
    specialize (small_steps (steps L n s) G).
    unfold increases_by_at_most in small_steps. rewrite Hq in small_steps.
    cbn [steps].
    destruct (value (GetChTime L (DoStepDynamics L 0.01 (steps L n s))))
      as [q'|]; [|contradiction].
    exists q'. split; [reflexivity|].
    rewrite Nat2Z.inj_succ. unfold Z.succ. rewrite inject_Z_plus.
    change (inject_Z 1) with 1%Q.
    generalize dependent (inject_Z (Z.of_nat n)). intros x Hle Hx. lra.
Qed.

Lemma guard_holds_before_150 (s : ChSystem L) (i : nat) :
  GetChTime L s = 0%float -> (i < 150)%nat -> guard (steps L i s) = true.
Proof.
  intros H0 Hi.
  destruct (value_after_small_steps s i H0) as [q [Hq Hle]]; [lia|].
  apply (guard_value_iff L (steps L i s) q Hq).
  assert (Hx : (inject_Z (Z.of_nat i) <= inject_Z 149)%Q)
    by (rewrite <- Zle_Qle; lia).
  change (inject_Z 149) with (149 # 1)%Q in Hx.
  generalize dependent (inject_Z (Z.of_nat i)). intros x Hle Hx. lra.
Qed.

End SmallSteps.

(** X13. If each step taken while the guard holds leaves a finite time
    that exceeds the previous one by at most 1/100, a run that enters the
    loop at time 0 needs at least 150 iterations: allowed fewer it is still
    in the loop, and allowed [fuel] it exports at least [min fuel 150]
    frames. *)
Theorem small_steps_need_150_iterations (L : Chrono) (fuel : nat) (argc : Z)
    (argv : list string) :
  create_directory L (out_dir L) = true ->
  sys_GetChTime L (prepared L) = 0%float ->
  (forall s, guard s = true ->
     increases_by_at_most (1 # 100) (GetChTime L s)
       (GetChTime L (DoStepDynamics L 0.01 s))) ->
  (Nat.min fuel 150 <=
   count is_ExportData (run_calls (main L fuel argc argv)))%nat /\
  ((fuel < 150)%nat -> run_outcome (main L fuel argc argv) = Looping).
Proof.
  unfold sys_GetChTime. intros Hdir H0 Hsmall.
  pose proof (guard_holds_before_150 L Hsmall (sys (prepared L))) as Hg.
  split.
  - rewrite main_created by assumption. cbn [run_calls].
    isolate_ExportScript.
    rewrite !count_app, count_ExportData_iterations, times_length.
    assert (Nat.min fuel 150 <= iterations L fuel (sys (prepared L)))%nat.
    { apply iterations_at_least; [|apply Nat.le_min_l].
      intros i Hi. apply Hg; [assumption|].
      pose proof (Nat.le_min_r fuel 150). lia. }
    lia.
  - intros Hf. rewrite main_created by assumption. cbn [run_outcome].
    rewrite (iterations_short L fuel fuel (sys (prepared L)));
      [|intros i Hi; apply Hg; [assumption|lia]|lia].
    rewrite Hg by (assumption || lia). reflexivity.
Qed.

Lemma fine_chrono_small_steps (s : ChSystem fine_chrono) :
  guard s = true ->
  increases_by_at_most (1 # 100) (GetChTime fine_chrono s)
    (GetChTime fine_chrono (DoStepDynamics fine_chrono 0.01 s)).
Proof.
  intros G. unfold guard in G. unfold increases_by_at_most.
  cbn [GetChTime DoStepDynamics fine_chrono] in *.
  destruct (Nat.lt_ge_cases s 192) as [Hs|Hs].
  - assert (H : forallb
                  (fun n =>
                     match value (fine_time (Nat.min n 192)),
                           value (fine_time (Nat.min (S n) 192)) with
                     | Some q, Some q' => Qle_bool q' (q + (1 # 100))
                     | _, _ => false
                     end) (seq 0 192) = true)
      by (vm_compute; reflexivity).
    rewrite forallb_forall in H. specialize (H s).
    destruct (value (fine_time (Nat.min s 192))) as [q|];
      destruct (value (fine_time (Nat.min (S s) 192))) as [q'|];
      try (discriminate H; apply in_seq; lia).
    apply Qle_bool_iff, H, in_seq. lia.
  - rewrite Nat.min_r in G by assumption. vm_compute in G. discriminate G.
Defined.

Lemma small_steps_need_150_iterations_witness :
  (Nat.min 200 150 <=
   count is_ExportData (run_calls (main fine_chrono 200 1 ["my_example"])))%nat /\
  run_outcome (main fine_chrono 100 1 ["my_example"]) = Looping.
Proof.
  split.
  - apply (small_steps_need_150_iterations fine_chrono 200 1 ["my_example"]
             eq_refl eq_refl fine_chrono_small_steps).
  - apply (small_steps_need_150_iterations fine_chrono 100 1 ["my_example"]
             eq_refl eq_refl fine_chrono_small_steps).
    apply Nat.ltb_lt. reflexivity.
Defined.
